(** * Markdown Viewer: link classification and tab store

    A shallow embedding of the decision logic of the viewer:
    - [Js]       the JavaScript string and array primitives the code uses;
    - [Common]   src/common/types.ts;
    - [Renderer] src/renderer/App.tsx (tab store, link classifier);
    - [Main]     src/main/index.ts (loaders, launch arguments, IPC guards).

    Strings are sequences of 8-bit characters.  [trim] and [toLowerCase]
    act on the ASCII range and pass other characters through unchanged:
    they are the platform's functions on strings of ASCII characters
    ([Spec.isAscii]), and a statement whose truth depends on what they
    return is made for such strings. *)

From Stdlib Require Import String Ascii List ZArith Lia Bool.
Import ListNotations.

Open Scope string_scope.
Open Scope list_scope.
Open Scope Z_scope.

(* ================================================================== *)
(** ** JavaScript primitives *)
(* ================================================================== *)

Module Js.

(** A promise that has settled, or a call that returned or threw:
    [Ok v] for a value, [Err message] for a rejection whose
    [error.message] is [message]. *)
Inductive Result (A : Type) : Type :=
| Ok (value : A)
| Err (message : string).
Arguments Ok {A} value.
Arguments Err {A} message.

(** [a ?? b] on optional values: [undefined] is [None]. *)
Definition nullish {A : Type} (a b : option A) : option A :=
  match a with
  | Some _ => a
  | None => b
  end.

(** Truthiness of a [string | undefined]: the empty string and
    [undefined] are falsy.  [truthyValue] keeps the string a truthy value
    holds, for the branch that goes on to use it. *)
Definition truthyValue (o : option string) : option string :=
  match o with
  | Some s => if (s =? "")%string then None else Some s
  | None => None
  end.

Definition truthy (o : option string) : bool :=
  match truthyValue o with
  | Some _ => true
  | None => false
  end.

(** [a === b] on [string | undefined]. *)
Definition strictEq (a b : option string) : bool :=
  match a, b with
  | Some x, Some y => (x =? y)%string
  | None, None => true
  | _, _ => false
  end.

(** *** Strings *)

Definition isWhiteSpace (c : ascii) : bool :=
  match nat_of_ascii c with
  | 9%nat | 10%nat | 11%nat | 12%nat | 13%nat | 32%nat => true
  | _ => false
  end.

Fixpoint trimStart (s : string) : string :=
  match s with
  | EmptyString => EmptyString
  | String c rest => if isWhiteSpace c then trimStart rest else s
  end.

Definition reverse (s : string) : string :=
  string_of_list_ascii (List.rev (list_ascii_of_string s)).

Definition trimEnd (s : string) : string :=
  reverse (trimStart (reverse s)).

Definition trim (s : string) : string := trimEnd (trimStart s).

Definition startsWith (s searchString : string) : bool :=
  String.prefix searchString s.

Definition endsWith (s searchString : string) : bool :=
  String.prefix (reverse searchString) (reverse s).

Definition isUpper (c : ascii) : bool :=
  let n := nat_of_ascii c in (65 <=? n)%nat && (n <=? 90)%nat.

Definition isLower (c : ascii) : bool :=
  let n := nat_of_ascii c in (97 <=? n)%nat && (n <=? 122)%nat.

Definition lowerChar (c : ascii) : ascii :=
  if isUpper c then ascii_of_nat (nat_of_ascii c + 32) else c.

Fixpoint toLowerCase (s : string) : string :=
  match s with
  | EmptyString => EmptyString
  | String c rest => String (lowerChar c) (toLowerCase rest)
  end.

(** [s.split(sep)[0]] for a one-character separator: the part of [s]
    before the first [sep], or all of [s]. *)
Fixpoint splitHead (sep : ascii) (s : string) : string :=
  match s with
  | EmptyString => EmptyString
  | String c rest =>
      if Ascii.eqb c sep then EmptyString else String c (splitHead sep rest)
  end.

(** *** Regular expressions of the program *)

(** [/^https?:\/\//i.test(s)] *)
Definition testHttpUrl (s : string) : bool :=
  let l := toLowerCase s in
  String.prefix "http://" l || String.prefix "https://" l.

(** [/^(https?:)?\/\//i.test(s)] *)
Definition testWebUrl (s : string) : bool :=
  String.prefix "//" s || testHttpUrl s.

Fixpoint afterLetters (s : string) : string :=
  match s with
  | EmptyString => EmptyString
  | String c rest =>
      if isUpper c || isLower c then afterLetters rest else s
  end.

(** [/^[a-zA-Z]+:/i.test(s)] *)
Definition testScheme (s : string) : bool :=
  match s with
  | EmptyString => false
  | String c rest =>
      (isUpper c || isLower c) && String.prefix ":" (afterLetters rest)
  end.

(** *** Arrays *)

(** [arr[i]]: [undefined] outside [0 .. length-1]. *)
Definition at_ {A : Type} (arr : list A) (i : Z) : option A :=
  if i <? 0 then None else nth_error arr (Z.to_nat i).

(** [arr.findIndex(p)]: the first index whose element satisfies [p],
    or [-1]. *)
Fixpoint findIndex {A : Type} (p : A -> bool) (arr : list A) : Z :=
  match arr with
  | [] => -1
  | x :: rest =>
      if p x then 0
      else let i := findIndex p rest in
           if i <? 0 then -1 else i + 1
  end.

(** [arr.find(p)] *)
Definition find {A : Type} (p : A -> bool) (arr : list A) : option A :=
  List.find p arr.

(** [arr[i] = v] for [i] inside the array (the only way the program
    assigns by index); the array is returned unchanged elsewhere. *)
Fixpoint setNth {A : Type} (arr : list A) (n : nat) (v : A) : list A :=
  match arr, n with
  | [], _ => []
  | _ :: rest, O => v :: rest
  | x :: rest, S m => x :: setNth rest m v
  end.

Definition assign {A : Type} (arr : list A) (i : Z) (v : A) : list A :=
  if i <? 0 then arr else setNth arr (Z.to_nat i) v.

End Js.

(* ================================================================== *)
(** ** src/common/types.ts *)
(* ================================================================== *)

Module Common.

Inductive ResourceKind : Type := File | Url.

Definition kindEq (a b : ResourceKind) : bool :=
  match a, b with
  | File, File | Url, Url => true
  | _, _ => false
  end.

Record MarkdownResource : Type := mkResource {
  id : string;
  title : string;
  content : string;
  openedAt : Z;
  kind : ResourceKind;
  path : option string;
  url : option string;
  finalUrl : option string;
  basePath : option string;
  baseUrl : option string
}.

(** [{ ...resource, id: newId }] *)
Definition withId (resource : MarkdownResource) (newId : string)
  : MarkdownResource :=
  mkResource newId (title resource) (content resource) (openedAt resource)
             (kind resource) (path resource) (url resource)
             (finalUrl resource) (basePath resource) (baseUrl resource).

Record LinkFollowPayload : Type := mkPayload {
  href : string;
  origin : ResourceKind;
  base : option string
}.

Record ContextMenuPayload : Type := mkContextMenu {
  selectionText : option string;
  link : option string;
  mermaidId : option string
}.

Inductive MermaidZoomDirection : Type := ZoomIn | ZoomOut.

End Common.

(* ================================================================== *)
(** ** src/renderer/App.tsx *)
(* ================================================================== *)

Module Renderer.
Import Js Common.

Definition markdownExtensions : list string :=
  [".md"; ".markdown"; ".mdown"; ".mkdn"; ".mkd"; ".mdx"].

Definition isMarkdownLink (href : string) : bool :=
  let sanitized := splitHead "?" (splitHead "#" href) in
  existsb (fun ext => endsWith (toLowerCase sanitized) ext) markdownExtensions.

Definition normalizeUrl (input : string) : string :=
  if testHttpUrl input then input else ("https://" ++ input)%string.

(** *** Component state: the [useState] cells of [App] *)

Record State : Type := mkState {
  tabs : list MarkdownResource;
  activeId : option string;
  status : option string;
  urlMode : bool;
  urlValue : string
}.

Definition initial : State := mkState [] None None false "".

Definition setTabs (f : list MarkdownResource -> list MarkdownResource)
           (st : State) : State :=
  mkState (f (tabs st)) (activeId st) (status st) (urlMode st) (urlValue st).

Definition setActiveId (v : option string) (st : State) : State :=
  mkState (tabs st) v (status st) (urlMode st) (urlValue st).

Definition setStatus (v : option string) (st : State) : State :=
  mkState (tabs st) (activeId st) v (urlMode st) (urlValue st).

Definition setUrlMode (v : bool) (st : State) : State :=
  mkState (tabs st) (activeId st) (status st) v (urlValue st).

Definition setUrlValue (v : string) (st : State) : State :=
  mkState (tabs st) (activeId st) (status st) (urlMode st) v.

(** [tabs.find((tab) => tab.id === activeId) ?? tabs[0] ?? null] *)
Definition activeTab (st : State) : option MarkdownResource :=
  nullish
    (find (fun tab => strictEq (Some (id tab)) (activeId st)) (tabs st))
    (at_ (tabs st) 0).

(** *** applyResource *)

(** The predicate handed to [findIndex] in [applyResource]. *)
Definition matchesEntry (resource entry : MarkdownResource) : bool :=
  if negb (kindEq (kind entry) (kind resource)) then false
  else
    match kind entry with
    | File => strictEq (path entry) (path resource)
    | Url =>
        let currentUrl := nullish (finalUrl entry) (url entry) in
        let incomingUrl := nullish (finalUrl resource) (url resource) in
        if truthy currentUrl && truthy incomingUrl
        then strictEq currentUrl incomingUrl
        else false
    end.

(** The updater passed to [setTabs], together with the value it leaves
    in the captured variable [resolvedId]. *)
Definition upsert (resource : MarkdownResource) (prev : list MarkdownResource)
  : list MarkdownResource * string :=
  let next := prev in
  let matchIndex := findIndex (matchesEntry resource) next in
  if 0 <=? matchIndex then
    match at_ next matchIndex with
    | Some existing =>
        let resolvedId := id existing in
        (assign next matchIndex (withId resource resolvedId), resolvedId)
    | None => (next, id resource) (* findIndex is in range: not reached *)
    end
  else (next ++ [resource], id resource).

(** The three state writes of [applyResource], in program order.
    [setTabs] only queues its updater; [setActiveId(resolvedId)] is
    evaluated when [applyResource] runs, before the updater that
    reassigns [resolvedId], so it receives the value the variable was
    declared with, [resource.id]. *)
Definition applyResource (resource : MarkdownResource) (st : State) : State :=
  let resolvedId := id resource in
  let st1 := setTabs (fun prev => fst (upsert resource prev)) st in
  let st2 := setActiveId (Some resolvedId) st1 in
  setStatus None st2.

(** [list.forEach((item) => applyResource(item))] *)
Definition addResource (incoming : list MarkdownResource) (st : State) : State :=
  fold_left (fun acc item => applyResource item acc) incoming st.

(** *** closeTab *)

Definition closeTabs (id0 : string) (prev : list MarkdownResource)
  : list MarkdownResource * option string :=
  let index := findIndex (fun tab => (id tab =? id0)%string) prev in
  if index =? -1 then (prev, None)
  else
    let next := filter (fun tab => negb (id tab =? id0)%string) prev in
    let neighbour :=
      nullish (nullish (at_ next index) (at_ next (index - 1))) (at_ next 0) in
    (next, option_map id neighbour).

Definition closeTab (id0 : string) (st : State) : State :=
  let fallback := snd (closeTabs id0 (tabs st)) in
  let st1 := setTabs (fun prev => fst (closeTabs id0 prev)) st in
  setActiveId
    (if strictEq (activeId st1) (Some id0) then fallback else activeId st1)
    st1.

(** The tab strip's [onClick={() => setActiveId(tab.id)}]. *)
Definition selectTab (id0 : string) (st : State) : State :=
  setActiveId (Some id0) st.

(** *** The preload bridge [window.api] and the platform *)

(** What the asynchronous collaborators answer during one handler run.
    [newURL input base] is [new URL(input, base).toString()], which
    throws on an unusable base; [openExternal] resolves with nothing or
    rejects. *)
Record Api : Type := mkApi {
  openFileDialog : Result (list MarkdownResource);
  openUrl : string -> Result MarkdownResource;
  openReference : LinkFollowPayload -> Result MarkdownResource;
  openExternal : string -> Result unit;
  newURL : string -> string -> Result string
}.

(** Calls that leave the renderer. *)
Inductive Call : Type :=
| CallOpenFileDialog
| CallOpenUrl (target : string)
| CallOpenReference (payload : LinkFollowPayload)
| CallOpenExternal (target : string).

(** One run of an async handler: the calls it made, the state writes it
    queued (applied to whatever the state is when they land), and the
    value its promise settles with. *)
Record Run (A : Type) : Type := mkRun {
  calls : list Call;
  writes : State -> State;
  settled : Result A
}.
Arguments mkRun {A} calls writes settled.
Arguments calls {A} r.
Arguments writes {A} r.
Arguments settled {A} r.

Definition noWrites : State -> State := fun st => st.

(** [await window.api.openExternal(target); return true;] outside any
    [try]: the call is made, and a rejected call rejects the
    activation. *)
Definition openExternally (api : Api) (target : string) : Run bool :=
  mkRun [CallOpenExternal target] noWrites
        (match openExternal api target with
         | Ok _ => Ok true
         | Err message => Err message
         end).

Definition unresolvable : string :=
  "Unable to resolve markdown reference without a base path.".

(** *** Event handlers *)

(** [window.api.onResourceOpened] and [onResourceError] subscriptions. *)
Definition onResourceOpened (resource : MarkdownResource) : State -> State :=
  addResource [resource].

Definition onResourceError (message : string) : State -> State :=
  setStatus (Some message).

Definition handleOpenFile (api : Api) : Run unit :=
  match openFileDialog api with
  | Ok resources =>
      if (0 <? List.length resources)%nat
      then mkRun [CallOpenFileDialog] (addResource resources) (Ok tt)
      else mkRun [CallOpenFileDialog] noWrites (Ok tt)
  | Err message =>
      mkRun [CallOpenFileDialog] (setStatus (Some message)) (Ok tt)
  end.

(** [st] is the render whose [urlValue] the callback closed over. *)
Definition handleUrlSubmit (api : Api) (st : State) : Run unit :=
  if (trim (urlValue st) =? "")%string then mkRun [] noWrites (Ok tt)
  else
    let normalized := normalizeUrl (trim (urlValue st)) in
    match openUrl api normalized with
    | Ok resource =>
        mkRun [CallOpenUrl normalized]
              (fun s => setUrlValue "" (setUrlMode false (addResource [resource] s)))
              (Ok tt)
    | Err message =>
        mkRun [CallOpenUrl normalized] (setStatus (Some message)) (Ok tt)
    end.

(** [baseUrl ?? finalUrl ?? url] *)
Definition webBase (tab : MarkdownResource) : option string :=
  nullish (nullish (baseUrl tab) (finalUrl tab)) (url tab).

(** The base handed to [openReference]. *)
Definition referenceBase (tab : MarkdownResource) : option string :=
  match kind tab with
  | File => basePath tab
  | Url => webBase tab
  end.

(** [st] is the render whose [activeTab] the callback closed over. *)
Definition handleLinkActivation (api : Api) (st : State) (href0 : string)
  : Run bool :=
  match activeTab st with
  | None => mkRun [] noWrites (Ok false)
  | Some active =>
      let trimmed := trim href0 in
      if (trimmed =? "")%string || startsWith trimmed "#" then
        mkRun [] noWrites (Ok false)
      else if testWebUrl trimmed then
        let absolute :=
          if startsWith trimmed "http" then trimmed
          else ("https:" ++ trimmed)%string in
        if isMarkdownLink absolute then
          match openUrl api absolute with
          | Ok resource =>
              mkRun [CallOpenUrl absolute] (addResource [resource]) (Ok true)
          | Err message =>
              mkRun [CallOpenUrl absolute] (setStatus (Some message)) (Ok true)
          end
        else openExternally api absolute
      else if testScheme trimmed then
        openExternally api trimmed
      else if negb (isMarkdownLink trimmed) then
        match kind active with
        | Url =>
            match truthyValue (webBase active) with
            | Some base0 =>
                match newURL api trimmed base0 with
                | Ok destination => openExternally api destination
                | Err message => mkRun [] noWrites (Err message)
                end
            | None => mkRun [] noWrites (Ok false)
            end
        | File => mkRun [] noWrites (Ok false)
        end
      else
        match truthyValue (referenceBase active) with
        | None => mkRun [] (setStatus (Some unresolvable)) (Ok true)
        | Some base0 =>
            let payload := mkPayload trimmed (kind active) (Some base0) in
            match openReference api payload with
            | Ok resource =>
                mkRun [CallOpenReference payload] (addResource [resource]) (Ok true)
            | Err message =>
                mkRun [CallOpenReference payload] (setStatus (Some message)) (Ok true)
            end
        end
  end.

(** The [onClick] of a rendered anchor: a rejected activation ends in the
    status banner. *)
Definition handleClick (api : Api) (st : State) (target : string) : Run unit :=
  if (target =? "")%string then mkRun [] noWrites (Ok tt)
  else if negb (startsWith target "#") then
    let activation := handleLinkActivation api st target in
    match settled activation with
    | Ok _ => mkRun (calls activation) (writes activation) (Ok tt)
    | Err message =>
        mkRun (calls activation)
              (fun s => setStatus (Some message) (writes activation s))
              (Ok tt)
    end
  else mkRun [] noWrites (Ok tt).

(** *** The store's operations, as the user and the loaders drive them *)

Inductive Op : Type :=
| Upsert (resource : MarkdownResource)
| Close (id0 : string)
| SetActive (id0 : string).

Definition step (st : State) (op : Op) : State :=
  match op with
  | Upsert resource => applyResource resource st
  | Close id0 => closeTab id0 st
  | SetActive id0 => selectTab id0 st
  end.

Definition run (ops : list Op) (st : State) : State := fold_left step ops st.

End Renderer.

(* ================================================================== *)
(** ** src/main/index.ts *)
(* ================================================================== *)

Module Main.
Import Js Common.

Definition ResourceDescriptor : Type := MarkdownResource.

Definition markdownExtensions : list string :=
  [".md"; ".markdown"; ".mdown"; ".mkdn"; ".mkd"; ".mdx"].

Definition isMarkdownPath (target : string) : bool :=
  let normalized := splitHead "#" (splitHead "?" target) in
  existsb (fun ext => endsWith (toLowerCase normalized) ext) markdownExtensions.

(** *** The host: Node, Electron and the network *)

Record Response : Type := mkResponse {
  ok : bool;
  statusLine : string;   (* [`${response.status} ${response.statusText}`] *)
  text : string;
  responseUrl : string
}.

Record ParsedUrl : Type := mkParsedUrl {
  pathname : string;
  host : string
}.

(** [randomUUID] and [Date.now] are read at the n-th load of a run. *)
Record Host : Type := mkHost {
  isPackaged : bool;
  pathResolve : list string -> string;
  pathBasename : string -> string;
  pathDirname : string -> string;
  readFile : string -> Result string;
  fetch : string -> Result Response;
  parseUrl : string -> Result ParsedUrl;
  resolveUrl : string -> string -> Result string;
  randomUUID : nat -> string;
  dateNow : nat -> Z
}.

(** [s.split(sep)] for a one-character separator. *)
Fixpoint split (sep : ascii) (s : string) : list string :=
  match s with
  | EmptyString => [EmptyString]
  | String c rest =>
      if Ascii.eqb c sep then EmptyString :: split sep rest
      else
        match split sep rest with
        | first :: others => String c first :: others
        | [] => [String c EmptyString]
        end
  end.

(** [segments.filter(Boolean).pop() || fallback] *)
Definition lastSegmentOr (segments : list string) (fallback : string) : string :=
  match List.rev (filter (fun seg => negb (seg =? "")%string) segments) with
  | last0 :: _ => last0
  | [] => fallback
  end.

(** *** Loaders *)

Definition readMarkdownFile (h : Host) (n : nat) (targetPath : string)
  : Result ResourceDescriptor :=
  let absolute := pathResolve h [targetPath] in
  match readFile h absolute with
  | Err message => Err message
  | Ok content0 =>
      Ok (mkResource (randomUUID h n) (pathBasename h absolute) content0
                     (dateNow h n) File (Some absolute) None None
                     (Some (pathDirname h absolute)) None)
  end.

Definition fetchMarkdownUrl (h : Host) (n : nat) (targetUrl : string)
  : Result ResourceDescriptor :=
  match fetch h targetUrl with
  | Err message => Err message
  | Ok response =>
      if negb (ok response) then
        Err ("Failed to load " ++ targetUrl ++ ": " ++ statusLine response)%string
      else
        let text0 := text response in
        let finalUrl0 :=
          if (responseUrl response =? "")%string then targetUrl
          else responseUrl response in
        match parseUrl h finalUrl0 with
        | Err message => Err message
        | Ok parsed =>
            let title0 := lastSegmentOr (split "/" (pathname parsed)) (host parsed) in
            Ok (mkResource (randomUUID h n) title0 text0 (dateNow h n) Url
                           None (Some targetUrl) (Some finalUrl0) None
                           (Some finalUrl0))
        end
  end.

(** *** Delivery to the renderer *)

Inductive Message : Type :=
| ResourceOpened (resource : ResourceDescriptor)
| ResourceError (message : string).

Inductive Loader : Type :=
| LoadUrl (target : string)
| LoadFile (target : string).

(** What one step of the main process did: it started a loader, or sent
    a message on [webContents]. *)
Inductive Event : Type :=
| Started (loader : Loader)
| Sent (message : Message).

Record MainState : Type := mkMain {
  mainWindow : bool;          (* [mainWindow !== null] *)
  rendererReady : bool;
  pendingResources : list ResourceDescriptor;
  loads : nat                 (* loaders run so far *)
}.

Definition publishResource (resource : ResourceDescriptor) (ms : MainState)
  : MainState * list Event :=
  if rendererReady ms && mainWindow ms then (ms, [Sent (ResourceOpened resource)])
  else
    (mkMain (mainWindow ms) (rendererReady ms)
            (pendingResources ms ++ [resource]) (loads ms), []).

Definition deliverResource (loader : Result ResourceDescriptor) (ms : MainState)
  : MainState * list Event :=
  match loader with
  | Ok resource => publishResource resource ms
  | Err message =>
      (ms, if mainWindow ms then [Sent (ResourceError message)] else [])
  end.

Definition flushPending (ms : MainState) : MainState * list Event :=
  if negb (rendererReady ms) || negb (mainWindow ms) then (ms, [])
  else
    (mkMain (mainWindow ms) (rendererReady ms) [] (loads ms),
     map (fun resource => Sent (ResourceOpened resource)) (pendingResources ms)).

Definition tick (ms : MainState) : MainState :=
  mkMain (mainWindow ms) (rendererReady ms) (pendingResources ms) (S (loads ms)).

(** *** Launch arguments *)

(** [argv.slice(sliceFrom).filter((arg) => !arg.startsWith('--'))] *)
Definition candidates (h : Host) (argv : list string) : list string :=
  let sliceFrom := if isPackaged h then 1%nat else 2%nat in
  filter (fun arg => negb (startsWith arg "--")) (skipn sliceFrom argv).

(** The body of [candidates.forEach].  The loaders are started in
    argument order; the schedule modelled is the one in which each
    loader settles before the next one starts. *)
Definition openTarget (h : Host) (arg : string) (ms : MainState)
  : MainState * list Event :=
  if testHttpUrl arg then
    let '(ms', events) :=
      deliverResource (fetchMarkdownUrl h (loads ms) arg) (tick ms) in
    (ms', Started (LoadUrl arg) :: events)
  else if isMarkdownPath arg then
    let '(ms', events) :=
      deliverResource (readMarkdownFile h (loads ms) arg) (tick ms) in
    (ms', Started (LoadFile arg) :: events)
  else (ms, []).

Fixpoint openTargets (h : Host) (args : list string) (ms : MainState)
  : MainState * list Event :=
  match args with
  | [] => (ms, [])
  | arg :: rest =>
      let '(ms1, events1) := openTarget h arg ms in
      let '(ms2, events2) := openTargets h rest ms1 in
      (ms2, events1 ++ events2)
  end.

Definition parseArgTargets (h : Host) (argv : list string) (ms : MainState)
  : MainState * list Event :=
  openTargets h (candidates h argv) ms.

(** *** IPC handlers *)

(** [ipcMain.handle('resource:open-url', ...)] *)
Definition handleOpenUrl (h : Host) (n : nat) (target : string)
  : Result ResourceDescriptor :=
  if negb (testHttpUrl target) then Err "Only http(s) urls are supported"
  else fetchMarkdownUrl h n target.

(** [ipcMain.handle('resource:open-reference', ...)] *)
Definition handleOpenReference (h : Host) (n : nat) (payload : LinkFollowPayload)
  : Result ResourceDescriptor :=
  match origin payload with
  | File =>
      match truthyValue (base payload) with
      | None => Err "Missing base path"
      | Some base0 =>
          readMarkdownFile h n (pathResolve h [base0; href payload])
      end
  | Url =>
      match truthyValue (base payload) with
      | None => Err "Missing base url"
      | Some base0 =>
          match resolveUrl h (href payload) base0 with
          | Err message => Err message
          | Ok resolved => fetchMarkdownUrl h n resolved
          end
      end
  end.

(** [ipcMain.on('renderer-ready', ...)] *)
Definition onRendererReady (ms : MainState) : MainState * list Event :=
  flushPending (mkMain (mainWindow ms) true (pendingResources ms) (loads ms)).

(** [resources.forEach((resource) => publishResource(resource))] *)
Fixpoint publishAll (resources : list ResourceDescriptor) (ms : MainState)
  : MainState * list Event :=
  match resources with
  | [] => (ms, [])
  | resource :: rest =>
      let '(ms1, events1) := publishResource resource ms in
      let '(ms2, events2) := publishAll rest ms1 in
      (ms2, events1 ++ events2)
  end.

(** What the native open dialog answered. *)
Record DialogAnswer : Type := mkAnswer {
  canceled : bool;
  filePaths : list string
}.

(** [Promise.all(filePaths.map((file) => readMarkdownFile(file)))], the
    reads settling in list order. *)
Fixpoint readAll (h : Host) (n : nat) (files : list string)
  : Result (list ResourceDescriptor) :=
  match files with
  | [] => Ok []
  | file0 :: rest =>
      match readMarkdownFile h n file0 with
      | Err message => Err message
      | Ok resource =>
          match readAll h (S n) rest with
          | Err message => Err message
          | Ok resources => Ok (resource :: resources)
          end
      end
  end.

Definition advance (k : nat) (ms : MainState) : MainState :=
  mkMain (mainWindow ms) (rendererReady ms) (pendingResources ms) (k + loads ms).

(** The dialog's answer is an input of the run; the state that comes
    back counts the reads that were started. *)
Definition handleOpenDialog (h : Host) (answer : Result DialogAnswer)
           (ms : MainState) : Result (list ResourceDescriptor) * MainState :=
  if negb (mainWindow ms) then (Ok [], ms)
  else
    match answer with
    | Err message => (Err message, ms)
    | Ok chosen =>
        if canceled chosen || (length (filePaths chosen) =? 0)%nat then (Ok [], ms)
        else (readAll h (loads ms) (filePaths chosen),
              advance (length (filePaths chosen)) ms)
    end.

Definition openFilesFromMenu (h : Host) (answer : Result DialogAnswer)
           (ms : MainState) : MainState * list Event :=
  match handleOpenDialog h answer ms with
  | (Ok resources, ms1) => publishAll resources ms1
  | (Err message, ms1) =>
      (ms1, if mainWindow ms1 then [Sent (ResourceError message)] else [])
  end.

(** *** Context menu *)

Inductive MenuAction : Type :=
| WriteClipboard (text0 : string)
| SendMermaidZoom (id0 : string) (direction : MermaidZoomDirection).

Inductive MenuItem : Type :=
| Entry (label : string) (accelerator : option string) (enabled : bool)
        (click : option MenuAction)
| Separator.

(** [value ?? ''] *)
Definition orEmpty (value : option string) : string :=
  match value with
  | Some text0 => text0
  | None => ""
  end.

(** The template built by [ipcMain.handle('context-menu', ...)]. *)
Definition contextMenuTemplate (payload : ContextMenuPayload) : list MenuItem :=
  let template0 : list MenuItem := [] in
  let template1 :=
    if truthy (selectionText payload) then
      template0 ++ [Entry "Copy" (Some "CmdOrCtrl+C") true
                          (Some (WriteClipboard (orEmpty (selectionText payload))))]
    else template0 in
  let template2 :=
    if truthy (link payload) then
      template1 ++ [Entry "Copy Link" None true
                          (Some (WriteClipboard (orEmpty (link payload))))]
    else template1 in
  let template3 :=
    match truthyValue (mermaidId payload) with
    | Some id0 =>
        template2 ++ [Separator] ++
          [Entry "Zoom In" None true (Some (SendMermaidZoom id0 ZoomIn));
           Entry "Zoom Out" None true (Some (SendMermaidZoom id0 ZoomOut))]
    | None => template2
    end in
  if (length template3 =? 0)%nat
  then template3 ++ [Entry "No actions" None false None]
  else template3.

(** *** Escaping *)

(** [s.replace(/c/g, replacement)] for a one-character pattern. *)
Fixpoint replaceAll (c : ascii) (replacement : string) (s : string) : string :=
  match s with
  | EmptyString => EmptyString
  | String x rest =>
      if Ascii.eqb x c then (replacement ++ replaceAll c replacement rest)%string
      else String x (replaceAll c replacement rest)
  end.

Definition escapeHtml (value : string) : string :=
  replaceAll ">" "&gt;" (replaceAll "<" "&lt;" (replaceAll "&" "&amp;" value)).

End Main.

(* ================================================================== *)
(** ** Main process to renderer *)
(* ================================================================== *)

Module Bridge.
Import Js Common.

(** The renderer's subscriptions, applied to the messages the main
    process sent, in order. *)
Definition receive (st : Renderer.State) (event : Main.Event) : Renderer.State :=
  match event with
  | Main.Sent (Main.ResourceOpened resource) => Renderer.onResourceOpened resource st
  | Main.Sent (Main.ResourceError message) => Renderer.onResourceError message st
  | Main.Started _ => st
  end.

Definition receiveAll (events : list Main.Event) (st : Renderer.State)
  : Renderer.State :=
  fold_left receive events st.


End Bridge.

(* ================================================================== *)
(** ** Vocabulary of the specification *)
(* ================================================================== *)

Module Spec.
Import Js Common Renderer.

(** The identity a document is deduplicated by: its kind, with the path
    for a file and the final URL if known, else the original URL, for a
    URL document. *)
Definition identityValue (r : MarkdownResource) : option string :=
  match kind r with
  | File => path r
  | Url => nullish (finalUrl r) (url r)
  end.

Definition identity (r : MarkdownResource) : ResourceKind * option string :=
  (kind r, identityValue r).

Definition sameIdentity (entry resource : MarkdownResource) : Prop :=
  identity entry = identity resource.

(** A field is populated when it holds a non-empty string. *)
Definition populated (o : option string) : Prop := truthy o = true.

(** The identity comparison of [applyResource]: same kind, and equal
    paths for files, equal and non-empty URLs for URL documents. *)
Definition dedupMatch (entry resource : MarkdownResource) : Prop :=
  sameIdentity entry resource /\
  (kind resource = Url -> populated (identityValue resource)).

Definition identityPopulated (r : MarkdownResource) : Prop :=
  populated (identityValue r).

(** At most one entry per (kind, identity) pair. *)
Definition uniqueIdentities (ts : list MarkdownResource) : Prop :=
  NoDup (map identity ts).

(** Every resource an operation sequence inserts has its identity
    populated. *)
Definition insertsPopulated (ops : list Op) : Prop :=
  forall r, In (Upsert r) ops -> identityPopulated r.

(** The tab with stable id [id0] sits at index [i] and nowhere else. *)
Definition tabAt (ts : list MarkdownResource) (id0 : string) (i : Z) : Prop :=
  (exists t, at_ ts i = Some t /\ id t = id0) /\
  (forall j t, at_ ts j = Some t -> id t = id0 -> j = i).

(** [ts] without its entry at index [i]. *)
Definition removeAt (ts : list MarkdownResource) (i : Z) : list MarkdownResource :=
  firstn (Z.to_nat i) ts ++ skipn (S (Z.to_nat i)) ts.

(** The fallback rule: the entry now at index [i], else the one at
    [i - 1], else the first remaining one, else none. *)
Definition fallbackSelection (remaining : list MarkdownResource) (i : Z)
  : option string :=
  match at_ remaining i with
  | Some t => Some (id t)
  | None =>
      match at_ remaining (i - 1) with
      | Some t => Some (id t)
      | None =>
          match at_ remaining 0 with
          | Some t => Some (id t)
          | None => None
          end
      end
  end.

(** What a fetching call answered, as the resources it delivered. *)
Definition fetched (api : Api) (c : Call) : option (Result (list MarkdownResource)) :=
  match c with
  | CallOpenFileDialog => Some (openFileDialog api)
  | CallOpenUrl target =>
      Some (match openUrl api target with
            | Ok r => Ok [r]
            | Err m => Err m
            end)
  | CallOpenReference payload =>
      Some (match openReference api payload with
            | Ok r => Ok [r]
            | Err m => Err m
            end)
  | CallOpenExternal _ => None
  end.

(** The store part of the state is untouched by a write. *)
Definition storeKept (w : State -> State) : Prop :=
  forall s, tabs (w s) = tabs s /\ activeId (w s) = activeId s.

(** A failed fetch leaves the store alone and becomes the status
    message; the store changes only by the Upsert of what a successful
    fetch delivered. *)
Definition fetchDiscipline (api : Api) (cs : list Call) (w : State -> State)
  : Prop :=
  (forall c m, In c cs -> fetched api c = Some (Err m) ->
     storeKept w /\ forall s, status (w s) = Some m) /\
  (storeKept w \/
   exists c rs, In c cs /\ fetched api c = Some (Ok rs) /\ rs <> [] /\
     forall s, tabs (w s) = tabs (addResource rs s) /\
               activeId (w s) = activeId (addResource rs s) /\
               status (w s) = None).

(** The run made the fetching call [c] and no other, and wrote what its
    answer demands: after a failure the message as the status with the
    store kept; after a delivery the Upsert of each delivered resource,
    in order. *)
Definition fetches {A : Type} (api : Api) (c : Call) (r : Run A) : Prop :=
  calls r = [c] /\
  (forall m, fetched api c = Some (Err m) ->
     forall s, tabs (writes r s) = tabs s /\
               activeId (writes r s) = activeId s /\
               status (writes r s) = Some m) /\
  (forall rs, fetched api c = Some (Ok rs) ->
     forall s, tabs (writes r s) = tabs (addResource rs s) /\
               activeId (writes r s) = activeId (addResource rs s) /\
               status (writes r s) = status (addResource rs s)).

(** The href reaches the last step of the classifier: it is not empty,
    not a fragment, not a web URL, carries no scheme, and ends in a
    markdown extension. *)
Definition markdownReference (href0 : string) : Prop :=
  let trimmed := trim href0 in
  trimmed <> "" /\ startsWith trimmed "#" = false /\
  testWebUrl trimmed = false /\ testScheme trimmed = false /\
  isMarkdownLink trimmed = true.

(** The href reaches the fourth step: as above, but it does not end in
    a markdown extension. *)
Definition plainRelativeLink (href0 : string) : Prop :=
  let trimmed := trim href0 in
  trimmed <> "" /\ startsWith trimmed "#" = false /\
  testWebUrl trimmed = false /\ testScheme trimmed = false /\
  isMarkdownLink trimmed = false.


Definition isTarget (arg : string) : bool :=
  testHttpUrl arg || Main.isMarkdownPath arg.

(** Every character of [s] is in the ASCII range, where [trim] and
    [toLowerCase] above are the platform's. *)
Fixpoint isAscii (s : string) : bool :=
  match s with
  | EmptyString => true
  | String c rest => (nat_of_ascii c <? 128)%nat && isAscii rest
  end.

(** The identity can take part in deduplication: always for a file, and
    for a URL document when its identity URL is non-empty. *)
Definition usableIdentity (r : MarkdownResource) : Prop :=
  kind r = Url -> populated (identityValue r).

(** The selection names an open tab, or the store is empty and nothing
    is selected. *)
Definition selectionValid (st : State) : Prop :=
  match activeId st with
  | Some a => In a (map id (tabs st))
  | None => tabs st = []
  end.

(** Every SetActive of the sequence names a tab that is open when it
    runs, as a click on the tab strip does, and every Upsert brings a
    document that no open tab matches at that moment. *)
Fixpoint opensNewOnly (ops : list Op) (st : State) : Prop :=
  match ops with
  | [] => True
  | op :: rest =>
      match op with
      | SetActive id0 => In id0 (map id (tabs st))
      | Upsert r => forall e, In e (tabs st) -> ~ dedupMatch e r
      | Close _ => True
      end /\ opensNewOnly rest (step st op)
  end.

(** [s] holds no character [c]. *)
Fixpoint lacks (c : ascii) (s : string) : Prop :=
  match s with
  | EmptyString => True
  | String x rest => x <> c /\ lacks c rest
  end.

(** Escaping in one pass, character by character. *)
Definition escapeChar (x : ascii) : string :=
  if Ascii.eqb x "&" then "&amp;"
  else if Ascii.eqb x "<" then "&lt;"
  else if Ascii.eqb x ">" then "&gt;"
  else String x EmptyString.

Fixpoint escapeEach (s : string) : string :=
  match s with
  | EmptyString => EmptyString
  | String x rest => (escapeChar x ++ escapeEach rest)%string
  end.

(** The loaders a run of the main process started, and the resources it
    sent to the renderer, in order. *)
Fixpoint started (events : list Main.Event) : list Main.Loader :=
  match events with
  | [] => []
  | Main.Started loader :: rest => loader :: started rest
  | Main.Sent _ :: rest => started rest
  end.

Fixpoint opened (events : list Main.Event) : list MarkdownResource :=
  match events with
  | [] => []
  | Main.Sent (Main.ResourceOpened r) :: rest => r :: opened rest
  | _ :: rest => opened rest
  end.

Fixpoint errors (events : list Main.Event) : list string :=
  match events with
  | [] => []
  | Main.Sent (Main.ResourceError m) :: rest => m :: errors rest
  | _ :: rest => errors rest
  end.

Definition loaderOf (arg : string) : Main.Loader :=
  if testHttpUrl arg then Main.LoadUrl arg else Main.LoadFile arg.

(** [s] is made of the character [c] only. *)
Fixpoint onlyChar (c : ascii) (s : string) : Prop :=
  match s with
  | EmptyString => True
  | String x rest => x = c /\ onlyChar c rest
  end.

Definition sentOpened (r : MarkdownResource) : Main.Event :=
  Main.Sent (Main.ResourceOpened r).

End Spec.

(* ================================================================== *)
(** ** Sample documents, stores and hosts *)
(* ================================================================== *)

Module Samples.
Import Js Common Renderer.

Definition fileDoc (id0 path0 dir0 text0 : string) : MarkdownResource :=
  mkResource id0 path0 text0 0 File (Some path0) None None (Some dir0) None.

Definition webDoc (id0 url0 text0 : string) : MarkdownResource :=
  mkResource id0 url0 text0 0 Url None (Some url0) (Some url0) None (Some url0).

Definition docA : MarkdownResource := fileDoc "A" "/docs/a.md" "/docs" "# a".
Definition docB : MarkdownResource := fileDoc "B" "/docs/b.md" "/docs" "# b".
Definition docC : MarkdownResource := fileDoc "C" "/docs/c.md" "/docs" "# c".

(** [a.md] read again: a fresh id, new content, the same path. *)
Definition docA' : MarkdownResource := fileDoc "A2" "/docs/a.md" "/docs" "# a, edited".

Definition readme : MarkdownResource :=
  webDoc "R" "https://example.com/docs/readme.md" "# readme".


Definition store (ts : list MarkdownResource) (active : option string) : State :=
  mkState ts active None false "".

(** Every fetch fails with [offline].  URL resolution answers as it
    does for a relative href and a base under [https://example.com/docs/]. *)
Definition offline : Api :=
  mkApi (Err "offline") (fun _ => Err "offline") (fun _ => Err "offline")
        (fun _ => Ok tt)
        (fun input _ => Ok ("https://example.com/docs/" ++ input)%string).

(** Every fetch fails and no application answers for external links. *)
Definition stranded : Api :=
  mkApi (Err "offline") (fun _ => Err "offline") (fun _ => Err "offline")
        (fun _ => Err "No application is registered for this link")
        (fun input _ => Ok ("https://example.com/docs/" ++ input)%string).

(** Every fetch delivers [readme]. *)
Definition online : Api :=
  mkApi (Ok [docA; docB]) (fun _ => Ok readme) (fun _ => Ok readme)
        (fun _ => Ok tt)
        (fun input _ => Ok ("https://example.com/docs/" ++ input)%string).


Definition windowReady : Main.MainState := Main.mkMain true true [] 0.

(** A URL document whose base is not a URL, and a bridge on which URL
    resolution throws as [new URL] does for such a base. *)
Definition brokenBaseDoc : MarkdownResource :=
  mkResource "k" "broken" "# k" 0 Url None (Some "not a url") None None None.

Definition unresolving : Api :=
  mkApi (Ok []) (fun _ => Ok readme) (fun _ => Ok readme)
        (fun _ => Ok tt)
        (fun _ _ => Err "Invalid URL").

(** The renderer has not signalled readiness yet; one document waits. *)
Definition windowLoading : Main.MainState := Main.mkMain true false [docA] 0.

(** A development build on a machine where [/docs/a.md] can be read and
    [https://example.com/docs/readme.md] can be fetched. *)
Definition deskHost : Main.Host :=
  Main.mkHost false
    (fun segments => List.last segments "")
    (fun p => p) (fun _ => "/docs")
    (fun p => if (p =? "/docs/a.md")%string then Ok "# a"
              else Err ("ENOENT: no such file or directory, open '" ++ p ++ "'")%string)
    (fun target =>
       if (target =? "https://example.com/docs/readme.md")%string
       then Ok (Main.mkResponse true "200 OK" "# readme" target)
       else Err "fetch failed")
    (fun _ => Ok (Main.mkParsedUrl "/docs/readme.md" "example.com"))
    (fun input _ => Ok ("https://example.com/docs/" ++ input)%string)
    (fun n => if Nat.eqb n 0 then "uuid-0" else "uuid-1")
    (fun _ => 0).

End Samples.

(* ================================================================== *)
(** ** Lemmas on the primitives *)
(* ================================================================== *)

Section ArrayLemmas.
Import Js.
Context {A : Type}.
Implicit Types (arr : list A) (p : A -> bool) (i j : Z).

Lemma at_zero_cons x arr : at_ (x :: arr) 0 = Some x.
Proof. reflexivity. Qed.

Lemma at_succ_cons x arr i : 0 <= i -> at_ (x :: arr) (i + 1) = at_ arr i.
Proof.
  intros Hi. unfold at_.
  destruct (Z.ltb_spec (i + 1) 0); [lia|].
  destruct (Z.ltb_spec i 0); [lia|].
  replace (Z.to_nat (i + 1)) with (S (Z.to_nat i)) by lia.
  reflexivity.
Qed.

Lemma at_negative arr i : i < 0 -> at_ arr i = None.
Proof. intros Hi. unfold at_. destruct (Z.ltb_spec i 0); [reflexivity|lia]. Qed.

Lemma at_nil i : at_ (@nil A) i = None.
Proof. unfold at_. destruct (i <? 0); [reflexivity|]. now destruct (Z.to_nat i). Qed.

Lemma at_some_range arr i x :
  at_ arr i = Some x -> 0 <= i < Z.of_nat (length arr).
Proof.
  unfold at_. destruct (Z.ltb_spec i 0); [discriminate|].
  intros Hx. assert (Hlt : (Z.to_nat i < length arr)%nat).
  { apply nth_error_Some. congruence. }
  lia.
Qed.

Lemma at_in_range arr i :
  0 <= i < Z.of_nat (length arr) -> exists x, at_ arr i = Some x.
Proof.
  intros Hi. unfold at_. destruct (Z.ltb_spec i 0); [lia|].
  destruct (nth_error arr (Z.to_nat i)) eqn:E; [eauto|].
  apply nth_error_None in E. lia.
Qed.

Lemma at_In arr i x : at_ arr i = Some x -> In x arr.
Proof.
  unfold at_. destruct (i <? 0); [discriminate|]. apply nth_error_In.
Qed.

Lemma In_at arr x : In x arr -> exists i, at_ arr i = Some x.
Proof.
  intros Hin. apply In_nth_error in Hin as [n Hn].
  exists (Z.of_nat n). unfold at_.
  destruct (Z.ltb_spec (Z.of_nat n) 0); [lia|].
  now rewrite Nat2Z.id.
Qed.

Lemma findIndex_bounds p arr :
  -1 <= findIndex p arr < Z.of_nat (length arr).
Proof.
  induction arr as [|x rest IH]; simpl; [lia|].
  destruct (p x); [lia|].
  destruct (Z.ltb_spec (findIndex p rest) 0); lia.
Qed.

Lemma findIndex_absent p arr :
  findIndex p arr = -1 <-> forall x, In x arr -> p x = false.
Proof.
  induction arr as [|x rest IH]; simpl.
  - split; [intros _ y []|reflexivity].
  - destruct (p x) eqn:Hx.
    + split; [discriminate|]. intros H. specialize (H x (or_introl eq_refl)). congruence.
    + pose proof (findIndex_bounds p rest) as Hb.
      destruct (Z.ltb_spec (findIndex p rest) 0) as [Hneg|Hpos].
      * split; [|reflexivity]. intros _ y [<-|Hy]; [assumption|].
        apply IH; [lia|assumption].
      * split; [lia|]. intros H.
        assert (findIndex p rest = -1) by (apply IH; intros y Hy; apply H; now right).
        lia.
Qed.

Lemma findIndex_found p arr :
  0 <= findIndex p arr ->
  exists x, at_ arr (findIndex p arr) = Some x /\ p x = true /\
    forall j y, 0 <= j < findIndex p arr -> at_ arr j = Some y -> p y = false.
Proof.
  induction arr as [|x rest IH]; simpl; [lia|].
  destruct (p x) eqn:Hx.
  - intros _. exists x. repeat split; [assumption|]. intros j y Hj. lia.
  - destruct (Z.ltb_spec (findIndex p rest) 0) as [Hneg|Hpos]; [lia|].
    intros _. destruct (IH Hpos) as (y & Hat & Hp & Hfirst).
    exists y. rewrite at_succ_cons by assumption. repeat split; try assumption.
    intros j z Hj Hz.
    destruct (Z.eq_dec j 0) as [->|Hne].
    + rewrite at_zero_cons in Hz. congruence.
    + replace j with ((j - 1) + 1) in Hz by lia.
      rewrite at_succ_cons in Hz by lia.
      apply (Hfirst (j - 1)); [lia|assumption].
Qed.

Lemma setNth_length arr n v : length (setNth arr n v) = length arr.
Proof.
  revert n. induction arr as [|x rest IH]; intros [|n]; simpl; auto.
Qed.

Lemma assign_length arr i v : length (assign arr i v) = length arr.
Proof. unfold assign. destruct (i <? 0); [reflexivity|apply setNth_length]. Qed.

Lemma setNth_same arr n v :
  (n < length arr)%nat -> nth_error (setNth arr n v) n = Some v.
Proof.
  revert n. induction arr as [|x rest IH]; intros [|n]; simpl; intros Hn;
    try lia; [reflexivity|]. apply IH. lia.
Qed.

Lemma setNth_other arr n m v :
  n <> m -> nth_error (setNth arr n v) m = nth_error arr m.
Proof.
  revert n m. induction arr as [|x rest IH]; intros [|n] [|m] Hne; simpl;
    try reflexivity; try congruence. apply IH. congruence.
Qed.

Lemma at_assign_same arr i v :
  0 <= i < Z.of_nat (length arr) -> at_ (assign arr i v) i = Some v.
Proof.
  intros Hi. unfold at_, assign. destruct (Z.ltb_spec i 0); [lia|].
  apply setNth_same. lia.
Qed.

Lemma at_assign_other arr i j v :
  j <> i -> at_ (assign arr i v) j = at_ arr j.
Proof.
  intros Hne. unfold at_, assign.
  destruct (Z.ltb_spec j 0); [reflexivity|].
  destruct (Z.ltb_spec i 0); [reflexivity|].
  apply setNth_other. lia.
Qed.

End ArrayLemmas.

Section ValueLemmas.
Import Js.

Lemma strictEq_eq (a b : option string) : strictEq a b = true <-> a = b.
Proof.
  destruct a as [x|], b as [y|]; simpl; split; try congruence; try reflexivity.
  - intros H. apply String.eqb_eq in H. congruence.
  - intros H. apply String.eqb_eq. congruence.
Qed.

Lemma truthy_value (o : option string) :
  truthy o = true <-> exists s, truthyValue o = Some s.
Proof.
  unfold truthy. destruct (truthyValue o); split; eauto; try discriminate.
  intros [s Hs]. discriminate.
Qed.

Lemma truthyValue_some (o : option string) s :
  truthyValue o = Some s -> o = Some s /\ s <> "".
Proof.
  destruct o as [x|]; simpl; [|discriminate].
  destruct (String.eqb_spec x ""); [discriminate|].
  intros [= <-]. split; [reflexivity|assumption].
Qed.

End ValueLemmas.

(* ================================================================== *)
(** ** Tab store: Upsert *)
(* ================================================================== *)

Section Upsert.
Import Js Common Renderer Spec.

Lemma matchesEntry_dedupMatch (resource entry : MarkdownResource) :
  matchesEntry resource entry = true <-> dedupMatch entry resource.
Proof.
  unfold matchesEntry, dedupMatch, sameIdentity, identity, identityValue, populated.
  destruct (kind entry) eqn:Ke, (kind resource) eqn:Kr; simpl.
  - rewrite strictEq_eq. split.
    + intros ->. split; [reflexivity|discriminate].
    + intros [[= ->] _]. reflexivity.
  - split; [discriminate|]. intros [[=] _].
  - split; [discriminate|]. intros [[=] _].
  - destruct (truthy (nullish (finalUrl entry) (url entry))) eqn:Tc,
             (truthy (nullish (finalUrl resource) (url resource))) eqn:Ti; simpl.
    + rewrite strictEq_eq. split.
      * intros ->. split; reflexivity.
      * intros [[= ->] _]. reflexivity.
    + split; [discriminate|]. intros [_ H]. specialize (H eq_refl). discriminate.
    + split; [discriminate|]. intros [[= E] _]. rewrite E in Tc. congruence.
    + split; [discriminate|]. intros [_ H]. specialize (H eq_refl). discriminate.
Qed.

Lemma matchesEntry_false (resource entry : MarkdownResource) :
  matchesEntry resource entry = false <-> ~ dedupMatch entry resource.
Proof.
  rewrite <- matchesEntry_dedupMatch.
  destruct (matchesEntry resource entry); split; congruence.
Qed.

Lemma applyResource_status (resource : MarkdownResource) (st : State) :
  status (applyResource resource st) = None.
Proof. reflexivity. Qed.

Lemma applyResource_tabs (resource : MarkdownResource) (st : State) :
  tabs (applyResource resource st) = fst (upsert resource (tabs st)).
Proof. reflexivity. Qed.

Lemma applyResource_activeId (resource : MarkdownResource) (st : State) :
  activeId (applyResource resource st) = Some (id resource).
Proof. reflexivity. Qed.

Lemma upsert_unmatched (resource : MarkdownResource) (prev : list MarkdownResource) :
  (forall e, In e prev -> ~ dedupMatch e resource) ->
  upsert resource prev = (prev ++ [resource], id resource).
Proof.
  intros Hnone. unfold upsert.
  assert (E : findIndex (matchesEntry resource) prev = -1).
  { apply findIndex_absent. intros e He. apply matchesEntry_false. auto. }
  rewrite E. reflexivity.
Qed.

Lemma upsert_matched (resource : MarkdownResource) (prev : list MarkdownResource) :
  (exists e, In e prev /\ dedupMatch e resource) ->
  exists i e,
    at_ prev i = Some e /\ dedupMatch e resource /\
    (forall j e', 0 <= j < i -> at_ prev j = Some e' -> ~ dedupMatch e' resource) /\
    upsert resource prev = (assign prev i (withId resource (id e)), id e).
Proof.
  intros (e0 & Hin & Hmatch).
  pose proof (findIndex_bounds (matchesEntry resource) prev) as Hb.
  assert (Hpos : 0 <= findIndex (matchesEntry resource) prev).
  { destruct (Z.eq_dec (findIndex (matchesEntry resource) prev) (-1)) as [E|]; [|lia].
    rewrite findIndex_absent in E. specialize (E e0 Hin).
    apply matchesEntry_false in E. contradiction. }
  destruct (findIndex_found _ _ Hpos) as (e & Hat & Hp & Hfirst).
  exists (findIndex (matchesEntry resource) prev), e.
  split; [assumption|]. split; [apply matchesEntry_dedupMatch, Hp|]. split.
  - intros j e' Hj He'. apply matchesEntry_false. eauto.
  - unfold upsert. destruct (Z.leb_spec 0 (findIndex (matchesEntry resource) prev)); [|lia].
    rewrite Hat. reflexivity.
Qed.

End Upsert.


(* ================================================================== *)
(** ** Link classifier *)
(* ================================================================== *)

Section ClassifierSteps.
Import Js Common Renderer Spec.
Variable api : Api.
Variable st : State.
Variable active : MarkdownResource.
Hypothesis Hactive : activeTab st = Some active.

Lemma activeTab_empty (s : State) : tabs s = [] -> activeTab s = None.
Proof. unfold activeTab. intros ->. reflexivity. Qed.

Lemma step_plain_relative (href0 : string) :
  plainRelativeLink href0 ->
  handleLinkActivation api st href0 =
    match kind active with
    | Url =>
        match truthyValue (webBase active) with
        | Some base0 =>
            match newURL api (trim href0) base0 with
            | Ok destination => openExternally api destination
            | Err message => mkRun [] noWrites (Err message)
            end
        | None => mkRun [] noWrites (Ok false)
        end
    | File => mkRun [] noWrites (Ok false)
    end.
Proof.
  intros (Hne & Hfrag & Hweb & Hscheme & Hmd).
  unfold handleLinkActivation. rewrite Hactive. cbv zeta.
  apply String.eqb_neq in Hne. rewrite Hne, Hfrag, Hweb, Hscheme, Hmd.
  reflexivity.
Qed.

Lemma step_markdown_reference (href0 : string) :
  markdownReference href0 ->
  handleLinkActivation api st href0 =
    match truthyValue (referenceBase active) with
    | None => mkRun [] (setStatus (Some unresolvable)) (Ok true)
    | Some base0 =>
        let payload := mkPayload (trim href0) (kind active) (Some base0) in
        match openReference api payload with
        | Ok resource =>
            mkRun [CallOpenReference payload] (addResource [resource]) (Ok true)
        | Err message =>
            mkRun [CallOpenReference payload] (setStatus (Some message)) (Ok true)
        end
    end.
Proof.
  intros (Hne & Hfrag & Hweb & Hscheme & Hmd).
  unfold handleLinkActivation. rewrite Hactive. cbv zeta.
  apply String.eqb_neq in Hne. rewrite Hne, Hfrag, Hweb, Hscheme, Hmd.
  reflexivity.
Qed.

Lemma step_web_url (href0 : string) :
  trim href0 <> "" -> startsWith (trim href0) "#" = false ->
  testWebUrl (trim href0) = true ->
  handleLinkActivation api st href0 =
    let absolute :=
      if startsWith (trim href0) "http" then trim href0
      else ("https:" ++ trim href0)%string in
    if isMarkdownLink absolute then
      match openUrl api absolute with
      | Ok resource =>
          mkRun [CallOpenUrl absolute] (addResource [resource]) (Ok true)
      | Err message =>
          mkRun [CallOpenUrl absolute] (setStatus (Some message)) (Ok true)
      end
    else openExternally api absolute.
Proof.
  intros Hne Hfrag Hweb.
  unfold handleLinkActivation. rewrite Hactive. cbv zeta.
  apply String.eqb_neq in Hne. rewrite Hne, Hfrag, Hweb.
  reflexivity.
Qed.

Lemma testWebUrl_not_fragment (s : string) :
  testWebUrl s = true -> s <> "" /\ startsWith s "#" = false.
Proof.
  destruct s as [|c rest]; [discriminate|].
  intros Hweb. split; [discriminate|].
  unfold startsWith. cbn [String.prefix].
  destruct (Ascii.ascii_dec "#" c) as [<-|Hne]; [discriminate Hweb|reflexivity].
Qed.

(** A web link is completed with [https:] unless it starts with [http],
    then fetched when it ends in a markdown extension and handed to
    external-open otherwise; either way the click is handled. *)
Lemma web_url_link_routed (href0 : string) :
  testWebUrl (trim href0) = true ->
  let absolute :=
    if startsWith (trim href0) "http" then trim href0
    else ("https:" ++ trim href0)%string in
  let r := handleLinkActivation api st href0 in
  (isMarkdownLink absolute = true ->
     settled r = Ok true /\
     calls r = [CallOpenUrl absolute] /\
     forall resource, openUrl api absolute = Ok resource ->
                      writes r = addResource [resource]) /\
  (isMarkdownLink absolute = false -> r = openExternally api absolute).
Proof.
  intros Hweb. destruct (testWebUrl_not_fragment _ Hweb) as [Hne Hfrag].
  cbv zeta. rewrite (step_web_url href0 Hne Hfrag Hweb). cbv zeta.
  destruct (isMarkdownLink _) eqn:Hmd.
  - destruct (openUrl api _) as [res|m] eqn:E; cbn [calls writes settled].
    + split; [|discriminate]. intros _. split; [reflexivity|].
      split; [reflexivity|]. intros resource [= <-]. reflexivity.
    + split; [|discriminate]. intros _. split; [reflexivity|].
      split; [reflexivity|]. intros resource [=].
  - split; [discriminate|reflexivity].
Qed.

End ClassifierSteps.

Section ClassifierClaims.
Import Js Common Renderer Spec Samples.

(** C10. With no document open (an empty tab collection, hence no active
    tab), activating any href makes no call, queues no state write and
    reports the click as not handled. *)
Theorem handleLinkActivation_no_document
        (api : Api) (st : State) (href0 : string) :
  tabs st = [] ->
  activeTab st = None /\
  handleLinkActivation api st href0 = mkRun [] noWrites (Ok false).
Proof.
  intros Hempty. pose proof (activeTab_empty st Hempty) as Hnone.
  split; [assumption|]. unfold handleLinkActivation. rewrite Hnone. reflexivity.
Qed.

Lemma handleLinkActivation_no_document_witness :
  activeTab initial = None /\
  handleLinkActivation online initial "https://example.com/image.png"
    = mkRun [] noWrites (Ok false).
Proof.
  apply (handleLinkActivation_no_document online initial
           "https://example.com/image.png").
  reflexivity.
Defined.



End ClassifierClaims.

Section RelativeLinkClaims.
Import Js Common Renderer Spec Samples.




(** C4, at a link whose scheme is written in upper case.  The href
    matches the web-URL pattern, which ignores case, but not the
    case-sensitive [startsWith('http')] test, so it is completed as if it
    were protocol-relative: the fetch is asked for
    [https:HTTP://example.com/readme.md], which the main process refuses
    before any request is made, and a non-markdown link is handed to
    external-open in the same mangled form. *)
Theorem uppercase_scheme_link_mangled
        (api : Api) (st : State) (active : MarkdownResource) :
  activeTab st = Some active ->
  testWebUrl "HTTP://example.com/readme.md" = true /\
  calls (handleLinkActivation api st "HTTP://example.com/readme.md")
    = [CallOpenUrl "https:HTTP://example.com/readme.md"] /\
  (forall h n, Main.handleOpenUrl h n "https:HTTP://example.com/readme.md"
                 = Err "Only http(s) urls are supported") /\
  handleLinkActivation api st "HTTP://example.com/image.png"
    = mkRun [CallOpenExternal "https:HTTP://example.com/image.png"]
            noWrites
            (match openExternal api "https:HTTP://example.com/image.png" with
             | Ok _ => Ok true
             | Err message => Err message
             end).
Proof.
  intros Hactive. split; [reflexivity|]. split; [|split; [reflexivity|]].
  - rewrite (step_web_url api st active Hactive "HTTP://example.com/readme.md");
      [|discriminate|reflexivity|reflexivity].
    cbv zeta.
    change (isMarkdownLink
              (if startsWith (trim "HTTP://example.com/readme.md") "http"
               then trim "HTTP://example.com/readme.md"
               else "https:" ++ trim "HTTP://example.com/readme.md")%string)
      with true.
    cbv iota.
    destruct (openUrl api _); reflexivity.
  - rewrite (step_web_url api st active Hactive "HTTP://example.com/image.png");
      [reflexivity|discriminate|reflexivity|reflexivity].
Qed.

Lemma uppercase_scheme_link_mangled_witness :
  calls (handleLinkActivation online (store [docA] (Some "A"))
           "HTTP://example.com/readme.md")
    = [CallOpenUrl "https:HTTP://example.com/readme.md"].
Proof.
  apply (uppercase_scheme_link_mangled online (store [docA] (Some "A")) docA).
  reflexivity.
Defined.

End RelativeLinkClaims.

(* ================================================================== *)
(** ** Fetch failures *)
(* ================================================================== *)

Section FetchDiscipline.
Import Js Common Renderer Spec.
Variable api : Api.

Lemma addResource_snoc (rs : list MarkdownResource) (r : MarkdownResource) (s : State) :
  addResource (rs ++ [r]) s = applyResource r (addResource rs s).
Proof. unfold addResource. rewrite fold_left_app. reflexivity. Qed.

Lemma addResource_status (rs : list MarkdownResource) (s : State) :
  rs <> [] -> status (addResource rs s) = None.
Proof.
  intros Hne. destruct (exists_last Hne) as (front & r & ->).
  rewrite addResource_snoc. reflexivity.
Qed.

Lemma storeKept_noWrites : storeKept noWrites.
Proof. intros s. split; reflexivity. Qed.

Lemma storeKept_setStatus (v : option string) : storeKept (setStatus v).
Proof. intros s. split; reflexivity. Qed.

Lemma discipline_quiet (w : State -> State) :
  storeKept w -> fetchDiscipline api [] w.
Proof. intros Hw. split; [intros c m []|left; assumption]. Qed.

Lemma discipline_external (target : string) :
  fetchDiscipline api [CallOpenExternal target] noWrites.
Proof.
  split; [|left; apply storeKept_noWrites].
  intros c m [<-|[]]. discriminate.
Qed.

Lemma discipline_failed (c : Call) (m : string) :
  fetched api c = Some (Err m) ->
  fetchDiscipline api [c] (setStatus (Some m)).
Proof.
  intros Hc. split; [|left; apply storeKept_setStatus].
  intros c' m' [<-|[]] Hc'. rewrite Hc in Hc'. injection Hc' as <-.
  split; [apply storeKept_setStatus|reflexivity].
Qed.

Lemma discipline_delivered (c : Call) (rs : list MarkdownResource)
      (w : State -> State) :
  fetched api c = Some (Ok rs) -> rs <> [] ->
  (forall s, tabs (w s) = tabs (addResource rs s) /\
             activeId (w s) = activeId (addResource rs s) /\
             status (w s) = status (addResource rs s)) ->
  fetchDiscipline api [c] w.
Proof.
  intros Hc Hne Hw. split.
  - intros c' m' [<-|[]] Hc'. rewrite Hc in Hc'. discriminate.
  - right. exists c, rs. split; [left; reflexivity|]. split; [assumption|].
    split; [assumption|]. intros s. destruct (Hw s) as (Ht & Ha & Hs).
    rewrite Ht, Ha, Hs. repeat split. apply addResource_status, Hne.
Qed.

Lemma discipline_handleOpenFile :
  fetchDiscipline api (calls (handleOpenFile api)) (writes (handleOpenFile api)).
Proof.
  unfold handleOpenFile. destruct (openFileDialog api) as [rs|m] eqn:E.
  - destruct rs as [|r rs].
    + simpl. split; [|left; apply storeKept_noWrites].
      intros c m [<-|[]]. simpl. rewrite E. discriminate.
    + simpl. apply discipline_delivered with (rs := r :: rs);
        [simpl; rewrite E; reflexivity|discriminate|].
      intros s. repeat split.
  - simpl. apply discipline_failed. simpl. rewrite E. reflexivity.
Qed.

Lemma discipline_handleUrlSubmit (st : State) :
  fetchDiscipline api (calls (handleUrlSubmit api st)) (writes (handleUrlSubmit api st)).
Proof.
  unfold handleUrlSubmit. destruct (trim (urlValue st) =? "")%string.
  - apply discipline_quiet, storeKept_noWrites.
  - cbv zeta. destruct (openUrl api _) as [r|m] eqn:E; simpl.
    + apply discipline_delivered with (rs := [r]);
        [simpl; rewrite E; reflexivity|discriminate|].
      intros s. repeat split.
    + apply discipline_failed. simpl. rewrite E. reflexivity.
Qed.

Lemma discipline_handleLinkActivation (st : State) (href0 : string) :
  fetchDiscipline api (calls (handleLinkActivation api st href0))
                  (writes (handleLinkActivation api st href0)).
Proof.
  unfold handleLinkActivation.
  destruct (activeTab st) as [active|]; [|apply discipline_quiet, storeKept_noWrites].
  cbv zeta.
  destruct ((trim href0 =? "")%string || startsWith (trim href0) "#");
    [apply discipline_quiet, storeKept_noWrites|].
  destruct (testWebUrl (trim href0)).
  { destruct (isMarkdownLink _); [|apply discipline_external].
    destruct (openUrl api _) as [r|m] eqn:E; cbn [calls writes].
    - apply discipline_delivered with (rs := [r]);
        [cbn [fetched]; rewrite E; reflexivity|discriminate|].
      intros s. repeat split.
    - apply discipline_failed. cbn [fetched]. rewrite E. reflexivity. }
  destruct (testScheme (trim href0)); [apply discipline_external|].
  destruct (negb (isMarkdownLink (trim href0))).
  { destruct (kind active); [apply discipline_quiet, storeKept_noWrites|].
    destruct (truthyValue (webBase active));
      [|apply discipline_quiet, storeKept_noWrites].
    destruct (newURL api _ _);
      [apply discipline_external|apply discipline_quiet, storeKept_noWrites]. }
  destruct (truthyValue (referenceBase active)) as [base0|];
    [|apply discipline_quiet, storeKept_setStatus].
  destruct (openReference api _) as [r|m] eqn:E; cbn [calls writes].
  - apply discipline_delivered with (rs := [r]);
      [cbn [fetched]; rewrite E; reflexivity|discriminate|].
    intros s. repeat split.
  - apply discipline_failed. cbn [fetched]. rewrite E. reflexivity.
Qed.

Lemma fetches_failed {A : Type} (c : Call) (m : string) (v : Result A) :
  fetched api c = Some (Err m) ->
  fetches api c (mkRun [c] (setStatus (Some m)) v).
Proof.
  intros Hc. split; [reflexivity|]. split.
  - intros m' Hc' s. rewrite Hc in Hc'. injection Hc' as <-.
    repeat split.
  - intros rs Hc'. rewrite Hc in Hc'. discriminate.
Qed.

Lemma fetches_delivered {A : Type} (c : Call) (rs : list MarkdownResource)
      (w : State -> State) (v : Result A) :
  fetched api c = Some (Ok rs) ->
  (forall s, tabs (w s) = tabs (addResource rs s) /\
             activeId (w s) = activeId (addResource rs s) /\
             status (w s) = status (addResource rs s)) ->
  fetches api c (mkRun [c] w v).
Proof.
  intros Hc Hw. split; [reflexivity|]. split.
  - intros m Hc'. rewrite Hc in Hc'. discriminate.
  - intros rs' Hc' s. rewrite Hc in Hc'. injection Hc' as <-. apply Hw.
Qed.

Lemma fetches_handleOpenFile :
  fetches api CallOpenFileDialog (handleOpenFile api).
Proof.
  unfold handleOpenFile. destruct (openFileDialog api) as [rs|m] eqn:E.
  - destruct rs as [|r rs]; cbn [Nat.ltb Nat.leb length].
    + apply fetches_delivered with (rs := []); [cbn [fetched]; now rewrite E|].
      intros s. repeat split.
    + apply fetches_delivered with (rs := r :: rs);
        [cbn [fetched]; now rewrite E|].
      intros s. repeat split.
  - apply fetches_failed. cbn [fetched]. now rewrite E.
Qed.

Lemma fetches_handleUrlSubmit (st : State) :
  trim (urlValue st) <> "" ->
  fetches api (CallOpenUrl (normalizeUrl (trim (urlValue st))))
          (handleUrlSubmit api st).
Proof.
  intros Hne. unfold handleUrlSubmit.
  apply String.eqb_neq in Hne. rewrite Hne. cbv zeta.
  destruct (openUrl api _) as [r|m] eqn:E.
  - apply fetches_delivered with (rs := [r]); [cbn [fetched]; now rewrite E|].
    intros s. repeat split.
  - apply fetches_failed. cbn [fetched]. now rewrite E.
Qed.

Lemma fetches_web_markdown (st : State) (active : MarkdownResource)
      (href0 : string) :
  activeTab st = Some active ->
  testWebUrl (trim href0) = true ->
  isMarkdownLink (if startsWith (trim href0) "http" then trim href0
                  else ("https:" ++ trim href0)%string) = true ->
  fetches api
          (CallOpenUrl (if startsWith (trim href0) "http" then trim href0
                        else ("https:" ++ trim href0)%string))
          (handleLinkActivation api st href0).
Proof.
  intros Hactive Hweb Hmd.
  destruct (testWebUrl_not_fragment _ Hweb) as [Hne Hfrag].
  rewrite (step_web_url api st active Hactive href0 Hne Hfrag Hweb).
  cbv zeta. rewrite Hmd.
  destruct (openUrl api _) as [r|m] eqn:E.
  - apply fetches_delivered with (rs := [r]); [cbn [fetched]; now rewrite E|].
    intros s. repeat split.
  - apply fetches_failed. cbn [fetched]. now rewrite E.
Qed.

Lemma fetches_markdown_reference (st : State) (active : MarkdownResource)
      (href0 base0 : string) :
  activeTab st = Some active ->
  markdownReference href0 ->
  truthyValue (referenceBase active) = Some base0 ->
  fetches api
          (CallOpenReference (mkPayload (trim href0) (kind active) (Some base0)))
          (handleLinkActivation api st href0).
Proof.
  intros Hactive Href Hbase.
  rewrite (step_markdown_reference api st active Hactive href0 Href).
  rewrite Hbase. cbv zeta.
  destruct (openReference api _) as [r|m] eqn:E.
  - apply fetches_delivered with (rs := [r]); [cbn [fetched]; now rewrite E|].
    intros s. repeat split.
  - apply fetches_failed. cbn [fetched]. now rewrite E.
Qed.

End FetchDiscipline.

Section FetchClaims.
Import Js Common Renderer Spec Samples.

(** C6. For each operation that fetches (open file, open URL, follow a
    link): a failed fetch leaves the tabs and the selection as they are
    and becomes the status message, whatever the message was before; the
    store changes only by the Upsert of what a successful fetch
    delivered; a fetch failure reported by the main process is handled
    the same way; and every Upsert clears the message.  The operations
    do fetch: open file always asks the dialog; open URL, on a non-blank
    entry, fetches the entry completed to a URL; following a link to a
    web markdown document fetches it, and following a relative markdown
    reference from a document with a base asks for the reference; each
    makes that one call, records its failure as the status with the
    store kept, and Upserts what it delivered.  The entry and the href
    are of ASCII characters where their trimmed text is named. *)
Theorem fetch_failure_keeps_store (api : Api) (st : State) (href0 : string) :
  fetchDiscipline api (calls (handleOpenFile api)) (writes (handleOpenFile api)) /\
  fetchDiscipline api (calls (handleUrlSubmit api st))
                  (writes (handleUrlSubmit api st)) /\
  fetchDiscipline api (calls (handleLinkActivation api st href0))
                  (writes (handleLinkActivation api st href0)) /\
  (forall message s,
     tabs (onResourceError message s) = tabs s /\
     activeId (onResourceError message s) = activeId s /\
     status (onResourceError message s) = Some message) /\
  (forall resource s, status (applyResource resource s) = None) /\
  fetches api CallOpenFileDialog (handleOpenFile api) /\
  (isAscii (urlValue st) = true -> trim (urlValue st) <> "" ->
   fetches api (CallOpenUrl (normalizeUrl (trim (urlValue st))))
           (handleUrlSubmit api st)) /\
  (forall active,
     activeTab st = Some active -> isAscii href0 = true ->
     (testWebUrl (trim href0) = true ->
      isMarkdownLink (if startsWith (trim href0) "http" then trim href0
                      else ("https:" ++ trim href0)%string) = true ->
      fetches api
              (CallOpenUrl (if startsWith (trim href0) "http" then trim href0
                            else ("https:" ++ trim href0)%string))
              (handleLinkActivation api st href0)) /\
     (markdownReference href0 ->
      forall base0, truthyValue (referenceBase active) = Some base0 ->
      fetches api
              (CallOpenReference
                 (mkPayload (trim href0) (kind active) (Some base0)))
              (handleLinkActivation api st href0))).
Proof.
  split; [apply discipline_handleOpenFile|].
  split; [apply discipline_handleUrlSubmit|].
  split; [apply discipline_handleLinkActivation|].
  split; [intros message s; repeat split|].
  split; [reflexivity|].
  split; [apply fetches_handleOpenFile|].
  split; [intros _ Hne; now apply fetches_handleUrlSubmit|].
  intros active Hactive _. split.
  - intros Hweb Hmd. now apply fetches_web_markdown with (active := active).
  - intros Href base0 Hbase. now apply fetches_markdown_reference.
Qed.

Lemma fetch_failure_keeps_store_witness :
  tabs (writes (handleLinkActivation offline (store [docA] (Some "A"))
                  "https://example.com/readme.md")
               (setStatus (Some "stale") (store [docA; docB] (Some "B"))))
    = [docA; docB] /\
  activeId (writes (handleLinkActivation offline (store [docA] (Some "A"))
                      "https://example.com/readme.md")
                   (setStatus (Some "stale") (store [docA; docB] (Some "B"))))
    = Some "B" /\
  status (writes (handleLinkActivation offline (store [docA] (Some "A"))
                    "https://example.com/readme.md")
                 (setStatus (Some "stale") (store [docA; docB] (Some "B"))))
    = Some "offline" /\
  fetches offline CallOpenFileDialog (handleOpenFile offline) /\
  fetches offline (CallOpenUrl "https://example.com/readme.md")
          (handleUrlSubmit offline
             (setUrlValue " example.com/readme.md " (store [docA] (Some "A")))) /\
  fetches online (CallOpenUrl "https://example.com/docs/readme.md")
          (handleLinkActivation online (store [docA] (Some "A"))
             "//example.com/docs/readme.md") /\
  fetches online (CallOpenReference (mkPayload "b.md" File (Some "/docs")))
          (handleLinkActivation online (store [docA] (Some "A")) "b.md").
Proof.
  destruct (fetch_failure_keeps_store offline (store [docA] (Some "A"))
              "https://example.com/readme.md")
    as (_ & _ & [Hfail _] & _ & _ & Hfile & _).
  destruct (Hfail (CallOpenUrl "https://example.com/readme.md") "offline")
    as [Hkept Hstatus]; [left; reflexivity|reflexivity|].
  destruct (Hkept (setStatus (Some "stale") (store [docA; docB] (Some "B"))))
    as [Ht Ha].
  split; [exact Ht|]. split; [exact Ha|]. split; [apply Hstatus|].
  split; [exact Hfile|]. split; [|split].
  - destruct (fetch_failure_keeps_store offline
                (setUrlValue " example.com/readme.md " (store [docA] (Some "A")))
                "") as (_ & _ & _ & _ & _ & _ & Hurl & _).
    apply Hurl; [reflexivity|discriminate].
  - destruct (fetch_failure_keeps_store online (store [docA] (Some "A"))
                "//example.com/docs/readme.md")
      as (_ & _ & _ & _ & _ & _ & _ & Hlink).
    destruct (Hlink docA) as [Hweb _]; [reflexivity|reflexivity|].
    apply Hweb; reflexivity.
  - destruct (fetch_failure_keeps_store online (store [docA] (Some "A")) "b.md")
      as (_ & _ & _ & _ & _ & _ & _ & Hlink).
    destruct (Hlink docA) as [_ Href]; [reflexivity|reflexivity|].
    apply (Href ltac:(repeat split; discriminate) "/docs"). reflexivity.
Defined.

End FetchClaims.

(* ================================================================== *)
(** ** Tab store: Close *)
(* ================================================================== *)

Section CloseLemmas.
Import Js Common Renderer Spec.
Implicit Types (ts : list MarkdownResource) (i j : Z) (n m : nat).

Lemma at_of_nat ts n : at_ ts (Z.of_nat n) = nth_error ts n.
Proof.
  unfold at_. destruct (Z.ltb_spec (Z.of_nat n) 0); [lia|]. now rewrite Nat2Z.id.
Qed.

Lemma at_to_nat ts i t :
  at_ ts i = Some t -> 0 <= i /\ nth_error ts (Z.to_nat i) = Some t.
Proof.
  unfold at_. destruct (Z.ltb_spec i 0); [discriminate|]. auto.
Qed.

Lemma filter_keeps_all (p : MarkdownResource -> bool) ts :
  (forall t, In t ts -> p t = true) -> filter p ts = ts.
Proof.
  induction ts as [|x rest IH]; simpl; intros Hall; [reflexivity|].
  rewrite (Hall x (or_introl eq_refl)). f_equal. apply IH. auto.
Qed.

(** Filtering out a predicate that exactly one position satisfies
    removes that position. *)
Lemma filter_single (p : MarkdownResource -> bool) ts n t :
  nth_error ts n = Some t -> p t = true ->
  (forall m u, nth_error ts m = Some u -> p u = true -> m = n) ->
  filter (fun x => negb (p x)) ts = firstn n ts ++ skipn (S n) ts.
Proof.
  revert n. induction ts as [|x rest IH]; intros n Hn Hp Huniq.
  - destruct n; discriminate.
  - destruct n as [|n]; simpl in *.
    + injection Hn as ->. rewrite Hp. simpl.
      apply filter_keeps_all. intros u Hu.
      apply In_nth_error in Hu as [m Hm].
      destruct (p u) eqn:Pu; [|reflexivity].
      specialize (Huniq (S m) u Hm Pu). discriminate.
    + destruct (p x) eqn:Px.
      * specialize (Huniq 0%nat x eq_refl Px). discriminate.
      * simpl. f_equal. apply IH; [assumption|assumption|].
        intros m u Hm Pu. specialize (Huniq (S m) u Hm Pu). congruence.
Qed.

Lemma tabAt_findIndex ts id0 i :
  tabAt ts id0 i -> findIndex (fun tab => (id tab =? id0)%string) ts = i.
Proof.
  intros [(t & Hat & Hid) Huniq].
  set (p := fun tab => (id tab =? id0)%string).
  pose proof (findIndex_bounds p ts) as Hb.
  destruct (Z.eq_dec (findIndex p ts) (-1)) as [E|Hne].
  - rewrite findIndex_absent in E. specialize (E t (at_In _ _ _ Hat)).
    unfold p in E. apply String.eqb_neq in E. contradiction.
  - destruct (findIndex_found p ts) as (x & Hx & Px & _); [lia|].
    apply (Huniq _ x Hx). unfold p in Px. now apply String.eqb_eq.
Qed.

Lemma tabAt_filter ts id0 i :
  tabAt ts id0 i ->
  filter (fun tab => negb (id tab =? id0)%string) ts = removeAt ts i.
Proof.
  intros [(t & Hat & Hid) Huniq]. unfold removeAt.
  destruct (at_to_nat _ _ _ Hat) as [Hi Hn].
  apply (filter_single (fun tab => (id tab =? id0)%string) ts (Z.to_nat i) t).
  - assumption.
  - now apply String.eqb_eq.
  - intros m u Hm Pu. apply String.eqb_eq in Pu.
    rewrite <- at_of_nat in Hm. specialize (Huniq _ _ Hm Pu). lia.
Qed.

Lemma neighbour_fallback ts i :
  option_map id (nullish (nullish (at_ ts i) (at_ ts (i - 1))) (at_ ts 0))
  = fallbackSelection ts i.
Proof.
  unfold fallbackSelection.
  destruct (at_ ts i); [reflexivity|]. simpl.
  destruct (at_ ts (i - 1)); [reflexivity|]. simpl.
  destruct (at_ ts 0); reflexivity.
Qed.

Lemma fallback_some ts i :
  ts <> [] -> exists t, In t ts /\ fallbackSelection ts i = Some (id t).
Proof.
  intros Hne. unfold fallbackSelection.
  destruct (at_ ts i) as [t|] eqn:E1; [exists t; split; [eapply at_In; eauto|reflexivity]|].
  destruct (at_ ts (i - 1)) as [t|] eqn:E2;
    [exists t; split; [eapply at_In; eauto|reflexivity]|].
  destruct ts as [|t rest]; [contradiction|].
  exists t. split; [left; reflexivity|reflexivity].
Qed.

Lemma removeAt_length ts i t :
  at_ ts i = Some t -> S (length (removeAt ts i)) = length ts.
Proof.
  intros Hat. pose proof (at_some_range _ _ _ Hat) as Hi. unfold removeAt.
  rewrite length_app, length_firstn, length_skipn. lia.
Qed.

Lemma closeTab_tabs id0 (st : State) :
  tabs (closeTab id0 st) = fst (closeTabs id0 (tabs st)).
Proof. reflexivity. Qed.

Lemma closeTab_activeId id0 (st : State) :
  activeId (closeTab id0 st) =
    if strictEq (activeId st) (Some id0)
    then snd (closeTabs id0 (tabs st)) else activeId st.
Proof. reflexivity. Qed.

Lemma closeTabs_present ts id0 i :
  tabAt ts id0 i ->
  closeTabs id0 ts = (removeAt ts i, fallbackSelection (removeAt ts i) i).
Proof.
  intros Hat. unfold closeTabs.
  rewrite (tabAt_findIndex _ _ _ Hat), (tabAt_filter _ _ _ Hat).
  destruct Hat as [(t & Hat & _) _]. pose proof (at_some_range _ _ _ Hat).
  destruct (Z.eqb_spec i (-1)); [lia|].
  cbv zeta. now rewrite neighbour_fallback.
Qed.

Lemma tabAt_of_NoDup ts i t :
  NoDup (map id ts) -> at_ ts i = Some t -> tabAt ts (id t) i.
Proof.
  intros Hnd Hat. split; [eauto|].
  intros j u Hu Hid.
  destruct (at_to_nat _ _ _ Hat) as [Hi Hn].
  destruct (at_to_nat _ _ _ Hu) as [Hj Hm].
  rewrite NoDup_nth_error in Hnd.
  assert (Z.to_nat j = Z.to_nat i); [|lia].
  apply Hnd.
  - rewrite length_map. apply nth_error_Some. congruence.
  - rewrite !nth_error_map, Hn, Hm. simpl. congruence.
Qed.

(** Stable ids stay pairwise distinct as long as every appended
    resource brings an id no tab has. *)
Lemma upsert_ids_distinct (r : MarkdownResource) ts :
  NoDup (map id ts) -> ~ In (id r) (map id ts) ->
  NoDup (map id (fst (upsert r ts))).
Proof.
  intros Hnd Hfresh. unfold upsert.
  pose proof (findIndex_bounds (matchesEntry r) ts) as Hb.
  destruct (Z.leb_spec 0 (findIndex (matchesEntry r) ts)) as [Hpos|Hneg].
  - destruct (findIndex_found _ _ Hpos) as (e & Hat & _). rewrite Hat. simpl.
    destruct (at_to_nat _ _ _ Hat) as [Hi Hn].
    unfold assign. destruct (Z.ltb_spec (findIndex (matchesEntry r) ts) 0); [lia|].
    assert (E : map id (setNth ts (Z.to_nat (findIndex (matchesEntry r) ts))
                               (withId r (id e))) = map id ts).
    { revert Hn. generalize (Z.to_nat (findIndex (matchesEntry r) ts)).
      clear. induction ts as [|x rest IH]; intros [|n] Hn; simpl in *;
        try discriminate.
      - now injection Hn as ->.
      - f_equal. now apply IH. }
    now rewrite E.
  - simpl. rewrite map_app. simpl.
    apply NoDup_app; [assumption|repeat constructor; intros []|].
    intros key Hin [<-|[]]. contradiction.
Qed.

Lemma closeTabs_ids_distinct id0 ts :
  NoDup (map id ts) -> NoDup (map id (fst (closeTabs id0 ts))).
Proof.
  intros Hnd. unfold closeTabs.
  destruct (findIndex _ ts =? -1); simpl; [assumption|].
  induction ts as [|x rest IH]; simpl; [constructor|].
  inversion Hnd as [|? ? Hnotin Hrest]; subst.
  destruct (negb (id x =? id0)%string); [|auto]. simpl. constructor; [|auto].
  intros Hin. apply Hnotin.
  apply in_map_iff in Hin as (y & Hy & Hin). apply filter_In in Hin as [Hin _].
  apply in_map_iff. eauto.
Qed.

End CloseLemmas.

Section CloseClaims.
Import Js Common Renderer Spec Samples.

(** C9. Closing a tab whose id is not the active selection leaves the
    active selection as it was. *)
Theorem closeTab_inactive_keeps_selection (st : State) (id0 : string) :
  activeId st <> Some id0 ->
  activeId (closeTab id0 st) = activeId st.
Proof.
  intros Hne. rewrite closeTab_activeId.
  destruct (strictEq (activeId st) (Some id0)) eqn:E; [|reflexivity].
  apply strictEq_eq in E. contradiction.
Qed.

Lemma closeTab_inactive_keeps_selection_witness :
  activeId (closeTab "A" (store [docA; docB; docC] (Some "C"))) = Some "C".
Proof.
  apply (closeTab_inactive_keeps_selection (store [docA; docB; docC] (Some "C")) "A").
  discriminate.
Defined.

(** C3. Closing the active tab, which sits at index [i], removes exactly
    that entry (the survivors keep their order) and selects the entry
    now at index [i], else the one at [i - 1], else the first remaining
    one, else none.  With more than one tab some surviving tab is
    selected; with a single tab the collection becomes empty and nothing
    is selected. *)
Theorem closeTab_active_fallback (st : State) (id0 : string) (i : Z) :
  tabs st <> [] ->
  activeId st = Some id0 ->
  tabAt (tabs st) id0 i ->
  let st' := closeTab id0 st in
  tabs st' = removeAt (tabs st) i /\
  activeId st' = fallbackSelection (tabs st') i /\
  ((1 < length (tabs st))%nat ->
     exists t, In t (tabs st') /\ activeId st' = Some (id t)) /\
  (length (tabs st) = 1%nat -> tabs st' = [] /\ activeId st' = None).
Proof.
  intros _ Hactive Hat. cbv zeta.
  rewrite closeTab_tabs, closeTab_activeId, Hactive, (closeTabs_present _ _ _ Hat).
  assert (E : strictEq (Some id0) (Some id0) = true) by now apply strictEq_eq.
  rewrite E. simpl fst. simpl snd.
  destruct Hat as [(t & Ht & _) _].
  pose proof (removeAt_length _ _ _ Ht) as Hlen.
  split; [reflexivity|]. split; [reflexivity|]. split.
  - intros Hmany. apply fallback_some. intros Hnil. rewrite Hnil in Hlen.
    simpl in Hlen. lia.
  - intros Hone.
    assert (Hnil : removeAt (tabs st) i = []).
    { apply length_zero_iff_nil. lia. }
    rewrite Hnil. split; [reflexivity|].
    unfold fallbackSelection. now rewrite !at_nil.
Qed.

Lemma closeTab_active_fallback_witness :
  let st' := closeTab "C" (store [docA; docB; docC] (Some "C")) in
  (tabs st' = removeAt [docA; docB; docC] 2 /\
   activeId st' = fallbackSelection (tabs st') 2 /\
   ((1 < 3)%nat -> exists t, In t (tabs st') /\ activeId st' = Some (id t)) /\
   (3%nat = 1%nat -> tabs st' = [] /\ activeId st' = None)) /\
  removeAt [docA; docB; docC] 2 = [docA; docB] /\
  fallbackSelection [docA; docB] 2 = Some "B".
Proof.
  split; [|split; reflexivity].
  apply (closeTab_active_fallback (store [docA; docB; docC] (Some "C")) "C" 2).
  - discriminate.
  - reflexivity.
  - apply (tabAt_of_NoDup [docA; docB; docC] 2 docC); [|reflexivity].
    simpl. repeat constructor; simpl; intuition discriminate.
Defined.

End CloseClaims.

(* ================================================================== *)
(** ** Tab store: one entry per identity *)
(* ================================================================== *)

Section IdentityInvariant.
Import Js Common Renderer Spec.

Lemma identity_withId (r : MarkdownResource) (newId : string) :
  identity (withId r newId) = identity r.
Proof. reflexivity. Qed.

Lemma map_setNth_same {B : Type} (f : MarkdownResource -> B)
      (ts : list MarkdownResource) (n : nat) (e v : MarkdownResource) :
  nth_error ts n = Some e -> f v = f e -> map f (setNth ts n v) = map f ts.
Proof.
  revert n. induction ts as [|x rest IH]; intros [|n] Hn Hf; simpl in *;
    try discriminate.
  - injection Hn as ->. now rewrite Hf.
  - f_equal. now apply IH.
Qed.

Lemma map_assign_same {B : Type} (f : MarkdownResource -> B)
      (ts : list MarkdownResource) (i : Z) (e v : MarkdownResource) :
  at_ ts i = Some e -> f v = f e -> map f (assign ts i v) = map f ts.
Proof.
  intros Hat Hf. destruct (at_to_nat _ _ _ Hat) as [Hi Hn].
  unfold assign. destruct (Z.ltb_spec i 0); [lia|].
  now apply map_setNth_same with (e := e).
Qed.

Lemma NoDup_map_filter {B : Type} (f : MarkdownResource -> B)
      (p : MarkdownResource -> bool) (ts : list MarkdownResource) :
  NoDup (map f ts) -> NoDup (map f (filter p ts)).
Proof.
  induction ts as [|x rest IH]; simpl; intros Hnd; [constructor|].
  inversion Hnd as [|? ? Hnotin Hrest]; subst.
  destruct (p x); [|auto]. simpl. constructor; [|auto].
  intros Hin. apply Hnotin.
  apply in_map_iff in Hin as (y & Hy & Hin). apply filter_In in Hin as [Hin _].
  apply in_map_iff. eauto.
Qed.

Lemma upsert_unique (r : MarkdownResource) (prev : list MarkdownResource) :
  identityPopulated r -> uniqueIdentities prev ->
  uniqueIdentities (fst (upsert r prev)).
Proof.
  intros Hpop Hnd. unfold uniqueIdentities in *.
  destruct (Z.eq_dec (findIndex (matchesEntry r) prev) (-1)) as [E|Hne].
  - rewrite findIndex_absent in E.
    rewrite upsert_unmatched by (intros e He; apply matchesEntry_false; auto).
    simpl. rewrite map_app. simpl.
    apply NoDup_app; [assumption|repeat constructor; intros []|].
    intros key Hin [<-|[]].
    apply in_map_iff in Hin as (e & Hsame & He).
    specialize (E e He). apply matchesEntry_false in E. apply E.
    split; [exact Hsame|]. intros _. exact Hpop.
  - pose proof (findIndex_bounds (matchesEntry r) prev) as Hb.
    destruct (findIndex_found (matchesEntry r) prev) as (e0 & Hat0 & Hp0 & _); [lia|].
    destruct (upsert_matched r prev) as (i & e & Hat & [Hsame _] & _ & Hup).
    { exists e0. split; [eapply at_In; eauto|]. now apply matchesEntry_dedupMatch. }
    rewrite Hup. simpl.
    rewrite (map_assign_same identity prev i e); [assumption|assumption|].
    rewrite identity_withId. symmetry. exact Hsame.
Qed.

Lemma closeTabs_unique (id0 : string) (prev : list MarkdownResource) :
  uniqueIdentities prev -> uniqueIdentities (fst (closeTabs id0 prev)).
Proof.
  intros Hnd. unfold closeTabs.
  destruct (findIndex _ prev =? -1); simpl; [assumption|].
  now apply NoDup_map_filter.
Qed.

Lemma step_unique (st : State) (op : Op) :
  (forall r, op = Upsert r -> identityPopulated r) ->
  uniqueIdentities (tabs st) -> uniqueIdentities (tabs (step st op)).
Proof.
  intros Hpop Hnd. destruct op as [r|id0|id0]; cbn [step].
  - rewrite applyResource_tabs. apply upsert_unique; auto.
  - rewrite closeTab_tabs. now apply closeTabs_unique.
  - assumption.
Qed.

Lemma run_unique (ops : list Op) (st : State) :
  insertsPopulated ops -> uniqueIdentities (tabs st) ->
  uniqueIdentities (tabs (run ops st)).
Proof.
  revert st. induction ops as [|op rest IH]; intros st Hpop Hnd; [assumption|].
  simpl. apply IH.
  - intros r Hr. apply Hpop. now right.
  - apply step_unique; [|assumption]. intros r ->. apply Hpop. now left.
Qed.

Lemma insertsPopulated_firstn (ops : list Op) (n : nat) :
  insertsPopulated ops -> insertsPopulated (firstn n ops).
Proof.
  intros Hpop r Hr. apply Hpop.
  rewrite <- (firstn_skipn n ops). apply in_or_app. now left.
Qed.

End IdentityInvariant.

Section IdentityClaims.
Import Js Common Renderer Spec Samples.

(** C2. Starting from the empty collection, after any number of steps
    of any sequence of Upsert, Close and SetActive operations whose
    inserted resources all have the identity of their kind populated
    (a non-empty path for a file; a non-empty final URL, or else
    original URL, for a URL document), the collection holds at most one
    entry per (kind, identity) pair. *)
Theorem store_identities_unique (ops : list Op) :
  insertsPopulated ops ->
  forall n, uniqueIdentities (tabs (run (firstn n ops) initial)).
Proof.
  intros Hpop n. apply run_unique; [|constructor].
  now apply insertsPopulated_firstn.
Qed.

Lemma store_identities_unique_witness :
  uniqueIdentities
    (tabs (run (firstn 3 [Upsert docA; Upsert docB; Upsert docA'; Close "B";
                          SetActive "A"; Upsert readme; Upsert readme])
               initial)) /\
  uniqueIdentities
    (tabs (run (firstn 7 [Upsert docA; Upsert docB; Upsert docA'; Close "B";
                          SetActive "A"; Upsert readme; Upsert readme])
               initial)).
Proof.
  assert (Hpop : insertsPopulated
                   [Upsert docA; Upsert docB; Upsert docA'; Close "B";
                    SetActive "A"; Upsert readme; Upsert readme]).
  { intros r Hin. simpl in Hin.
    repeat (destruct Hin as [Hin|Hin];
            [try discriminate Hin; injection Hin as <-; reflexivity|]).
    destruct Hin. }
  split; apply (store_identities_unique _ Hpop).
Defined.

End IdentityClaims.

(* ================================================================== *)
(** ** Launch arguments *)
(* ================================================================== *)

Section LaunchLemmas.
Import Js Common Spec.
Variable h : Main.Host.



End LaunchLemmas.

Section LaunchClaims.
Import Js Common Renderer Spec Samples.




End LaunchClaims.

(* ================================================================== *)
(** ** Extension tests and URL normalisation *)
(* ================================================================== *)

Section StringLemmas.
Import Js.

Lemma splitHead_comm (a b : ascii) (s : string) :
  splitHead a (splitHead b s) = splitHead b (splitHead a s).
Proof.
  induction s as [|x rest IH]; [reflexivity|]. cbn [splitHead].
  destruct (Ascii.eqb x b) eqn:Eb, (Ascii.eqb x a) eqn:Ea; cbn [splitHead];
    rewrite ?Ea, ?Eb; try reflexivity.
  now rewrite IH.
Qed.

Lemma splitHead_app_sep (c : ascii) (s rest : string) :
  splitHead c (s ++ String c rest) = splitHead c s.
Proof.
  induction s as [|x s' IH]; cbn [append splitHead].
  - now rewrite Ascii.eqb_refl.
  - destruct (Ascii.eqb x c); [reflexivity|]. now rewrite IH.
Qed.

Lemma lowerChar_idempotent (x : ascii) : lowerChar (lowerChar x) = lowerChar x.
Proof.
  destruct x as [b0 b1 b2 b3 b4 b5 b6 b7].
  destruct b0, b1, b2, b3, b4, b5, b6, b7; reflexivity.
Qed.

Lemma lowerChar_keeps_mark (x c : ascii) :
  c = "#"%char \/ c = "?"%char ->
  Ascii.eqb (lowerChar x) c = Ascii.eqb x c.
Proof.
  intros [->| ->]; destruct x as [b0 b1 b2 b3 b4 b5 b6 b7];
    destruct b0, b1, b2, b3, b4, b5, b6, b7; reflexivity.
Qed.

Lemma toLowerCase_idempotent (s : string) :
  toLowerCase (toLowerCase s) = toLowerCase s.
Proof.
  induction s as [|x rest IH]; [reflexivity|]. cbn [toLowerCase].
  now rewrite lowerChar_idempotent, IH.
Qed.

Lemma splitHead_toLowerCase (c : ascii) (s : string) :
  c = "#"%char \/ c = "?"%char ->
  splitHead c (toLowerCase s) = toLowerCase (splitHead c s).
Proof.
  intros Hc. induction s as [|x rest IH]; [reflexivity|].
  cbn [toLowerCase splitHead]. rewrite (lowerChar_keeps_mark x c Hc).
  destruct (Ascii.eqb x c); [reflexivity|]. cbn [toLowerCase]. now rewrite IH.
Qed.

Lemma toLowerCase_app (s t : string) :
  toLowerCase (s ++ t) = (toLowerCase s ++ toLowerCase t)%string.
Proof.
  induction s as [|x rest IH]; [reflexivity|]. cbn [append toLowerCase].
  now rewrite IH.
Qed.

Lemma prefix_app (s t : string) : String.prefix s (s ++ t) = true.
Proof.
  induction s as [|x rest IH]; cbn [append String.prefix].
  - destruct t; reflexivity.
  - destruct (ascii_dec x x); [assumption|congruence].
Qed.

Lemma testHttpUrl_https (s : string) : testHttpUrl ("https://" ++ s) = true.
Proof.
  unfold testHttpUrl. rewrite toLowerCase_app.
  change (toLowerCase "https://") with "https://".
  apply orb_true_iff. right. apply prefix_app.
Qed.

End StringLemmas.

Section StringProperties.
Import Js Common Renderer Spec Samples.

(** X1. The renderer's and the main process's markdown tests agree on
    every string, although one cuts at [#] first and the other at [?]
    first. *)
Theorem isMarkdownLink_isMarkdownPath (s : string) :
  isMarkdownLink s = Main.isMarkdownPath s.
Proof.
  unfold isMarkdownLink, Main.isMarkdownPath. cbv zeta.
  now rewrite splitHead_comm.
Qed.

(** X2. Whatever follows a [#] or a [?] has no part in the markdown
    test: appending a fragment or a query to any string leaves its
    verdict as it was. *)
Theorem isMarkdownLink_ignores_suffix (s rest : string) :
  isMarkdownLink (s ++ String "#" rest) = isMarkdownLink s /\
  isMarkdownLink (s ++ String "?" rest) = isMarkdownLink s.
Proof.
  unfold isMarkdownLink. cbv zeta. split.
  - now rewrite splitHead_app_sep.
  - rewrite (splitHead_comm "?" "#" (s ++ String "?" rest)).
    rewrite splitHead_app_sep. now rewrite splitHead_comm.
Qed.

Lemma isMarkdownLink_toLowerCase (s : string) :
  isMarkdownLink (toLowerCase s) = isMarkdownLink s.
Proof.
  unfold isMarkdownLink. cbv zeta.
  rewrite !splitHead_toLowerCase by auto.
  now rewrite toLowerCase_idempotent.
Qed.

(** X3. The markdown test does not depend on letter case: two strings
    that differ only in the case of their letters get the same verdict. *)
Theorem isMarkdownLink_ignores_case (s t : string) :
  toLowerCase s = toLowerCase t ->
  isMarkdownLink s = isMarkdownLink t.
Proof.
  intros E. rewrite <- (isMarkdownLink_toLowerCase s), E.
  apply isMarkdownLink_toLowerCase.
Qed.

Lemma isMarkdownLink_ignores_case_witness :
  isMarkdownLink "Docs/README.MD?raw=1" = isMarkdownLink "docs/readme.md?RAW=1".
Proof.
  apply (isMarkdownLink_ignores_case "Docs/README.MD?raw=1" "docs/readme.md?RAW=1").
  reflexivity.
Defined.

(** X4. Whatever is typed into the URL field, the address that is
    requested passes the http(s) test, so the main process's handler
    never refuses it as unsupported; an address that already passes the
    test is sent as typed (trimmed), and normalising twice changes
    nothing. *)
Theorem url_submit_is_http (api : Api) (st : State) (c : Call) :
  In c (calls (handleUrlSubmit api st)) ->
  let target := normalizeUrl (trim (urlValue st)) in
  c = CallOpenUrl target /\
  testHttpUrl target = true /\
  (testHttpUrl (trim (urlValue st)) = true -> target = trim (urlValue st)) /\
  normalizeUrl target = target /\
  forall h n, Main.handleOpenUrl h n target = Main.fetchMarkdownUrl h n target.
Proof.
  intros Hin. cbv zeta.
  assert (Hhttp : testHttpUrl (normalizeUrl (trim (urlValue st))) = true).
  { unfold normalizeUrl.
    destruct (testHttpUrl (trim (urlValue st))) eqn:E; [exact E|].
    apply testHttpUrl_https. }
  split.
  - unfold handleUrlSubmit in Hin.
    destruct (trim (urlValue st) =? "")%string; [destruct Hin|].
    cbv zeta in Hin.
    destruct (openUrl api _); cbn [calls] in Hin;
      destruct Hin as [<-|[]]; reflexivity.
  - split; [exact Hhttp|]. split; [|split].
    + intros E. unfold normalizeUrl. now rewrite E.
    + unfold normalizeUrl at 1. now rewrite Hhttp.
    + intros h n. unfold Main.handleOpenUrl. now rewrite Hhttp.
Qed.

Lemma url_submit_is_http_witness :
  CallOpenUrl "https://example.com/readme.md"
    = CallOpenUrl (normalizeUrl (trim "  example.com/readme.md ")) /\
  testHttpUrl (normalizeUrl (trim "  example.com/readme.md ")) = true /\
  (testHttpUrl (trim "  example.com/readme.md ") = true ->
   normalizeUrl (trim "  example.com/readme.md ") = trim "  example.com/readme.md ") /\
  normalizeUrl (normalizeUrl (trim "  example.com/readme.md "))
    = normalizeUrl (trim "  example.com/readme.md ") /\
  forall h n,
    Main.handleOpenUrl h n (normalizeUrl (trim "  example.com/readme.md "))
      = Main.fetchMarkdownUrl h n (normalizeUrl (trim "  example.com/readme.md ")).
Proof.
  apply (url_submit_is_http online
           (mkState [] None None true "  example.com/readme.md ")
           (CallOpenUrl "https://example.com/readme.md")).
  left. reflexivity.
Defined.

End StringProperties.

(* ================================================================== *)
(** ** Tab store: selection, ids and repeated operations *)
(* ================================================================== *)

Section StoreLemmas.
Import Js Common Renderer Spec.
Implicit Types (ts : list MarkdownResource) (st : State) (i : Z).

Lemma state_eq (a b : State) :
  tabs a = tabs b -> activeId a = activeId b -> status a = status b ->
  urlMode a = urlMode b -> urlValue a = urlValue b -> a = b.
Proof.
  destruct a, b. simpl. intros -> -> -> -> ->. reflexivity.
Qed.

Lemma withId_self (r : MarkdownResource) : withId r (id r) = r.
Proof. now destruct r. Qed.

Lemma assign_cons_zero {A : Type} (x v : A) (rest : list A) :
  assign (x :: rest) 0 v = v :: rest.
Proof. reflexivity. Qed.

Lemma assign_cons_succ {A : Type} (x v : A) (rest : list A) i :
  0 <= i -> assign (x :: rest) (i + 1) v = x :: assign rest i v.
Proof.
  intros Hi. unfold assign.
  destruct (Z.ltb_spec (i + 1) 0); [lia|]. destruct (Z.ltb_spec i 0); [lia|].
  replace (Z.to_nat (i + 1)) with (S (Z.to_nat i)) by lia. reflexivity.
Qed.

Lemma setNth_setNth {A : Type} (l : list A) (n : nat) (v w : A) :
  setNth (setNth l n v) n w = setNth l n w.
Proof.
  revert n. induction l as [|x rest IH]; intros [|n]; simpl; try reflexivity.
  now rewrite IH.
Qed.

Lemma assign_assign {A : Type} (l : list A) i (v w : A) :
  assign (assign l i v) i w = assign l i w.
Proof.
  unfold assign. destruct (i <? 0); [reflexivity|apply setNth_setNth].
Qed.

Lemma setNth_last {A : Type} (l : list A) (x v : A) :
  setNth (l ++ [x]) (length l) v = l ++ [v].
Proof. induction l as [|y rest IH]; simpl; [reflexivity|now rewrite IH]. Qed.

Lemma assign_last {A : Type} (l : list A) (x v : A) :
  assign (l ++ [x]) (Z.of_nat (length l)) v = l ++ [v].
Proof.
  unfold assign. destruct (Z.ltb_spec (Z.of_nat (length l)) 0); [lia|].
  rewrite Nat2Z.id. apply setNth_last.
Qed.

Lemma at_last {A : Type} (l : list A) (x : A) :
  at_ (l ++ [x]) (Z.of_nat (length l)) = Some x.
Proof.
  unfold at_. destruct (Z.ltb_spec (Z.of_nat (length l)) 0); [lia|].
  rewrite Nat2Z.id, nth_error_app2, Nat.sub_diag by lia. reflexivity.
Qed.

Lemma findIndex_snoc_hit {A : Type} (p : A -> bool) (l : list A) (x : A) :
  findIndex p l = -1 -> p x = true ->
  findIndex p (l ++ [x]) = Z.of_nat (length l).
Proof.
  intros Habs Hx. rewrite findIndex_absent in Habs.
  induction l as [|y rest IH]; cbn [app findIndex length].
  - now rewrite Hx.
  - rewrite (Habs y (or_introl eq_refl)).
    rewrite IH by (intros z Hz; apply Habs; now right).
    destruct (Z.ltb_spec (Z.of_nat (length rest)) 0); lia.
Qed.

Lemma findIndex_assign {A : Type} (p : A -> bool) (l : list A) (v : A) :
  0 <= findIndex p l -> p v = true ->
  findIndex p (assign l (findIndex p l) v) = findIndex p l.
Proof.
  intros Hpos Hv. induction l as [|x rest IH]; cbn [findIndex] in *; [lia|].
  destruct (p x) eqn:Px.
  - rewrite assign_cons_zero. cbn [findIndex]. now rewrite Hv.
  - destruct (Z.ltb_spec (findIndex p rest) 0) as [Hneg|Hj]; [lia|].
    rewrite assign_cons_succ by assumption. cbn [findIndex]. rewrite Px.
    rewrite IH by assumption.
    destruct (Z.ltb_spec (findIndex p rest) 0); [lia|reflexivity].
Qed.

Lemma map_id_assign ts i e (v : MarkdownResource) :
  at_ ts i = Some e -> id v = id e -> map id (assign ts i v) = map id ts.
Proof. intros Hat Hid. now apply map_assign_same with (e := e). Qed.

(** The two ways an Upsert can go. *)
Lemma upsert_cases (r : MarkdownResource) ts :
  (exists e,
     0 <= findIndex (matchesEntry r) ts /\
     at_ ts (findIndex (matchesEntry r) ts) = Some e /\
     matchesEntry r e = true /\
     upsert r ts = (assign ts (findIndex (matchesEntry r) ts) (withId r (id e)),
                    id e)) \/
  (findIndex (matchesEntry r) ts = -1 /\ upsert r ts = (ts ++ [r], id r)).
Proof.
  pose proof (findIndex_bounds (matchesEntry r) ts) as Hb.
  destruct (Z.eq_dec (findIndex (matchesEntry r) ts) (-1)) as [E|Hne].
  - right. split; [assumption|]. unfold upsert. rewrite E. reflexivity.
  - left. destruct (findIndex_found (matchesEntry r) ts) as (e & Hat & Hp & _); [lia|].
    exists e. split; [lia|]. split; [assumption|]. split; [assumption|].
    unfold upsert. destruct (Z.leb_spec 0 (findIndex (matchesEntry r) ts)); [|lia].
    now rewrite Hat.
Qed.

Lemma matchesEntry_withId (r : MarkdownResource) (x : string) e :
  matchesEntry r e = true -> matchesEntry r (withId r x) = true.
Proof.
  intros He. apply matchesEntry_dedupMatch in He as [Hsame Husable].
  apply matchesEntry_dedupMatch. split; [reflexivity|assumption].
Qed.

Lemma matchesEntry_self (r : MarkdownResource) :
  usableIdentity r -> matchesEntry r r = true.
Proof. intros Hu. apply matchesEntry_dedupMatch. split; [reflexivity|exact Hu]. Qed.

Lemma upsert_ids (r : MarkdownResource) ts :
  (map id (fst (upsert r ts)) = map id ts /\ In (snd (upsert r ts)) (map id ts)) \/
  (fst (upsert r ts) = ts ++ [r] /\ snd (upsert r ts) = id r).
Proof.
  destruct (upsert_cases r ts) as [(e & Hpos & Hat & _ & ->)|[_ ->]].
  - left. simpl. split; [now apply map_id_assign with (e := e)|].
    apply in_map. eapply at_In; eauto.
  - right. split; reflexivity.
Qed.

Lemma applyResource_new_selectionValid (r : MarkdownResource) st :
  (forall e, In e (tabs st) -> ~ dedupMatch e r) ->
  selectionValid (applyResource r st).
Proof.
  intros Hnone. unfold selectionValid.
  rewrite applyResource_activeId, applyResource_tabs, (upsert_unmatched _ _ Hnone).
  cbn [fst]. rewrite map_app. apply in_or_app. right. left. reflexivity.
Qed.

Lemma closeTabs_absent id0 ts :
  ~ In id0 (map id ts) -> closeTabs id0 ts = (ts, None).
Proof.
  intros Habs. unfold closeTabs.
  assert (E : findIndex (fun tab => (id tab =? id0)%string) ts = -1).
  { apply findIndex_absent. intros t Ht. apply String.eqb_neq. intros <-.
    apply Habs. now apply in_map. }
  rewrite E. reflexivity.
Qed.

Lemma closeTabs_present_filter id0 ts :
  In id0 (map id ts) ->
  closeTabs id0 ts =
    (filter (fun tab => negb (id tab =? id0)%string) ts,
     fallbackSelection (filter (fun tab => negb (id tab =? id0)%string) ts)
       (findIndex (fun tab => (id tab =? id0)%string) ts)).
Proof.
  intros Hin. unfold closeTabs.
  destruct (Z.eqb_spec (findIndex (fun tab => (id tab =? id0)%string) ts) (-1))
    as [E|_].
  - rewrite findIndex_absent in E. apply in_map_iff in Hin as (t & <- & Ht).
    specialize (E t Ht). cbv beta in E. now rewrite String.eqb_refl in E.
  - cbv zeta. now rewrite neighbour_fallback.
Qed.

Lemma filter_ids_lack id0 ts :
  ~ In id0 (map id (filter (fun tab => negb (id tab =? id0)%string) ts)).
Proof.
  intros Hin. apply in_map_iff in Hin as (t & <- & Ht).
  apply filter_In in Ht as [_ Ht]. now rewrite String.eqb_refl in Ht.
Qed.

Lemma closeTabs_ids_lack id0 ts :
  ~ In id0 (map id (fst (closeTabs id0 ts))).
Proof.
  destruct (in_dec string_dec id0 (map id ts)) as [Hin|Habs].
  - rewrite (closeTabs_present_filter _ _ Hin). apply filter_ids_lack.
  - now rewrite (closeTabs_absent _ _ Habs).
Qed.

Lemma fallbackSelection_in ts i a :
  fallbackSelection ts i = Some a -> In a (map id ts).
Proof.
  unfold fallbackSelection.
  destruct (at_ ts i) as [t|] eqn:E1;
    [intros [= <-]; apply in_map; eapply at_In; eauto|].
  destruct (at_ ts (i - 1)) as [t|] eqn:E2;
    [intros [= <-]; apply in_map; eapply at_In; eauto|].
  destruct (at_ ts 0) as [t|] eqn:E3; [|discriminate].
  intros [= <-]. apply in_map. eapply at_In; eauto.
Qed.

Lemma fallbackSelection_none ts i :
  fallbackSelection ts i = None -> ts = [].
Proof.
  unfold fallbackSelection.
  destruct (at_ ts i); [discriminate|]. destruct (at_ ts (i - 1)); [discriminate|].
  destruct ts as [|t rest]; [reflexivity|]. rewrite at_zero_cons. discriminate.
Qed.

Lemma closeTabs_fallback_in id0 ts a :
  snd (closeTabs id0 ts) = Some a -> In a (map id (fst (closeTabs id0 ts))).
Proof.
  destruct (in_dec string_dec id0 (map id ts)) as [Hin|Habs].
  - rewrite (closeTabs_present_filter _ _ Hin). simpl. apply fallbackSelection_in.
  - rewrite (closeTabs_absent _ _ Habs). discriminate.
Qed.

Lemma closeTab_selectionValid id0 st :
  selectionValid st -> selectionValid (closeTab id0 st).
Proof.
  unfold selectionValid. intros Hvalid.
  rewrite closeTab_activeId, closeTab_tabs.
  destruct (strictEq (activeId st) (Some id0)) eqn:E.
  - apply strictEq_eq in E. rewrite E in Hvalid.
    rewrite (closeTabs_present_filter _ _ Hvalid). simpl.
    destruct (fallbackSelection _ _) as [a|] eqn:F.
    + eapply fallbackSelection_in; eauto.
    + eapply fallbackSelection_none; eauto.
  - destruct (activeId st) as [a|] eqn:Ea.
    + assert (Hne : a <> id0).
      { intros ->. rewrite (proj2 (strictEq_eq _ _) eq_refl) in E. discriminate. }
      destruct (in_dec string_dec id0 (map id (tabs st))) as [Hin|Habs].
      * rewrite (closeTabs_present_filter _ _ Hin). simpl.
        apply in_map_iff in Hvalid as (t & Hid & Ht). apply in_map_iff.
        exists t. split; [assumption|]. apply filter_In. split; [assumption|].
        apply negb_true_iff, String.eqb_neq. congruence.
      * now rewrite (closeTabs_absent _ _ Habs).
    + rewrite Hvalid. reflexivity.
Qed.

Lemma step_selectionValid st (op : Op) :
  selectionValid st ->
  (forall r, op = Upsert r -> forall e, In e (tabs st) -> ~ dedupMatch e r) ->
  (forall id0, op = SetActive id0 -> In id0 (map id (tabs st))) ->
  selectionValid (step st op).
Proof.
  intros Hvalid Hnew Hclick. destruct op as [r|id0|id0]; cbn [step].
  - apply applyResource_new_selectionValid. now apply Hnew.
  - now apply closeTab_selectionValid.
  - unfold selectionValid, selectTab. simpl. now apply Hclick.
Qed.

Lemma run_selectionValid (ops : list Op) st :
  selectionValid st -> opensNewOnly ops st -> selectionValid (run ops st).
Proof.
  revert st. induction ops as [|op rest IH]; intros st Hvalid Hops; [assumption|].
  cbn [run fold_left]. destruct Hops as [Hop Hrest].
  apply IH; [|assumption]. apply step_selectionValid; [assumption| |].
  - intros r ->. exact Hop.
  - intros id0 ->. exact Hop.
Qed.

Lemma find_by_id ts (n : nat) (t : MarkdownResource) :
  NoDup (map id ts) -> nth_error ts n = Some t ->
  find (fun tab => strictEq (Some (id tab)) (Some (id t))) ts = Some t.
Proof.
  revert n. induction ts as [|x rest IH]; intros [|n] Hnd Hn; simpl in *;
    try discriminate.
  - injection Hn as ->. now rewrite String.eqb_refl.
  - inversion Hnd as [|? ? Hnotin Hrest]; subst.
    destruct (String.eqb_spec (id x) (id t)) as [E|_].
    + exfalso. apply Hnotin. rewrite E. apply in_map. eapply nth_error_In; eauto.
    + eapply IH; eauto.
Qed.

Lemma find_id_some ts a :
  In a (map id ts) ->
  exists t, find (fun tab => strictEq (Some (id tab)) (Some a)) ts = Some t /\ id t = a.
Proof.
  induction ts as [|x rest IH]; simpl; [intros []|].
  destruct (String.eqb_spec (id x) a) as [E|Hne].
  - intros _. exists x. split; [reflexivity|assumption].
  - intros [E|Hin]; [contradiction|]. now apply IH.
Qed.

Lemma find_id_none ts a :
  ~ In a (map id ts) ->
  find (fun tab => strictEq (Some (id tab)) (Some a)) ts = None.
Proof.
  intros Habs. induction ts as [|x rest IH]; simpl; [reflexivity|].
  destruct (String.eqb_spec (id x) a) as [E|Hne].
  - exfalso. apply Habs. left. assumption.
  - apply IH. intros Hin. apply Habs. now right.
Qed.

End StoreLemmas.

Section ReopenClaims.
Import Js Common Renderer Spec Samples.

(** C1, when a document that is already open is opened again.  The
    loader gives the incoming resource an id no tab has.  The tabs are
    updated as C1 says: the first matching tab keeps its index and its
    stable id, takes every other field from the incoming resource, no
    other entry changes, and the status message is cleared.  The
    selection, however, becomes the incoming id, not the stable id of
    the matched tab: it names no tab, and the document shown is the
    first tab, whichever that is. *)
Theorem applyResource_match_selects_unknown_id
        (st : State) (resource : MarkdownResource) :
  (exists e, In e (tabs st) /\ dedupMatch e resource) ->
  ~ In (id resource) (map id (tabs st)) ->
  let st' := applyResource resource st in
  (exists i e,
     at_ (tabs st) i = Some e /\ dedupMatch e resource /\
     length (tabs st') = length (tabs st) /\
     at_ (tabs st') i = Some (withId resource (id e)) /\
     (forall j, j <> i -> at_ (tabs st') j = at_ (tabs st) j)) /\
  status st' = None /\
  activeId st' = Some (id resource) /\
  ~ In (id resource) (map id (tabs st')) /\
  activeTab st' = at_ (tabs st') 0.
Proof.
  intros Hsome Hfresh. cbv zeta.
  destruct (upsert_matched resource (tabs st) Hsome)
    as (i & e & Hat & Hm & _ & Hup).
  pose proof (at_some_range _ _ _ Hat) as Hi.
  assert (Hids : map id (tabs (applyResource resource st)) = map id (tabs st)).
  { rewrite applyResource_tabs, Hup. cbn [fst].
    now apply map_id_assign with (e := e). }
  split; [|split; [reflexivity|split; [reflexivity|split]]].
  - exists i, e. rewrite applyResource_tabs, Hup. cbn [fst].
    split; [assumption|]. split; [assumption|]. split; [apply assign_length|].
    split; [now apply at_assign_same|].
    intros j Hj. now apply at_assign_other.
  - now rewrite Hids.
  - unfold activeTab. rewrite applyResource_activeId.
    rewrite find_id_none by now rewrite Hids. reflexivity.
Qed.

Lemma applyResource_match_selects_unknown_id_witness :
  ((exists i e,
      at_ [docB; docA] i = Some e /\ dedupMatch e docA' /\
      length (tabs (applyResource docA' (store [docB; docA] (Some "B")))) = 2%nat /\
      at_ (tabs (applyResource docA' (store [docB; docA] (Some "B")))) i
        = Some (withId docA' (id e)) /\
      (forall j, j <> i ->
         at_ (tabs (applyResource docA' (store [docB; docA] (Some "B")))) j
           = at_ [docB; docA] j)) /\
   status (applyResource docA' (store [docB; docA] (Some "B"))) = None /\
   activeId (applyResource docA' (store [docB; docA] (Some "B"))) = Some "A2" /\
   ~ In "A2" (map id (tabs (applyResource docA' (store [docB; docA] (Some "B"))))) /\
   activeTab (applyResource docA' (store [docB; docA] (Some "B")))
     = at_ (tabs (applyResource docA' (store [docB; docA] (Some "B")))) 0) /\
  tabs (applyResource docA' (store [docB; docA] (Some "B")))
    = [docB; withId docA' "A"] /\
  activeTab (applyResource docA' (store [docB; docA] (Some "B"))) = Some docB.
Proof.
  split; [|split; reflexivity].
  apply (applyResource_match_selects_unknown_id (store [docB; docA] (Some "B")) docA').
  - exists docA. split; [simpl; auto|]. split; [reflexivity|discriminate].
  - simpl. intros [H|[H|[]]]; discriminate H.
Defined.

End ReopenClaims.

Section StoreProperties.
Import Js Common Renderer Spec Samples.

Lemma closeTab_other_selection (st : State) (id0 : string) :
  activeId st <> Some id0 -> activeId (closeTab id0 st) = activeId st.
Proof.
  intros Hne. rewrite closeTab_activeId.
  destruct (strictEq (activeId st) (Some id0)) eqn:E; [|reflexivity].
  apply strictEq_eq in E. contradiction.
Qed.

Lemma find_never {A : Type} (l : list A) : List.find (fun _ => false) l = None.
Proof. induction l; simpl; auto. Qed.

Lemma activeTab_of_valid (st : State) (a : string) :
  activeId st = Some a -> In a (map id (tabs st)) ->
  exists t, activeTab st = Some t /\ id t = a.
Proof.
  intros Ha Hin. unfold activeTab. rewrite Ha.
  destruct (find_id_some _ _ Hin) as (t & Hfind & Hid).
  rewrite Hfind. exists t. split; [reflexivity|assumption].
Qed.

(** X5. The document shown is always one of the open tabs, and a
    non-empty store always shows one.  It is the tab the selection
    names when that tab is open; when nothing is selected, or the
    selected id is not among the tabs, the first tab is shown. *)
Theorem activeTab_shown (st : State) :
  (forall t, activeTab st = Some t -> In t (tabs st)) /\
  (tabs st <> [] -> exists t, activeTab st = Some t) /\
  (forall a, activeId st = Some a -> In a (map id (tabs st)) ->
     exists t, activeTab st = Some t /\ id t = a) /\
  (activeId st = None \/
   (exists a, activeId st = Some a /\ ~ In a (map id (tabs st))) ->
   activeTab st = at_ (tabs st) 0).
Proof.
  split; [|split; [|split]].
  - intros t. unfold activeTab.
    destruct (Js.find _ (tabs st)) as [u|] eqn:F; simpl.
    + intros [= <-]. unfold Js.find in F. apply find_some in F. tauto.
    + apply at_In.
  - intros Hne. unfold activeTab.
    destruct (Js.find _ (tabs st)) as [u|]; simpl; [eauto|].
    destruct (tabs st) as [|t rest]; [contradiction|]. exists t. reflexivity.
  - apply activeTab_of_valid.
  - intros [Hnone|(a & Ha & Habs)]; unfold activeTab.
    + rewrite Hnone. unfold Js.find. simpl. now rewrite find_never.
    + rewrite Ha, (find_id_none _ _ Habs). reflexivity.
Qed.

Lemma activeTab_shown_witness :
  activeTab (store [docA; docB] (Some "gone")) = at_ [docA; docB] 0 /\
  (exists t, activeTab (store [docA; docB] (Some "B")) = Some t /\ id t = "B").
Proof.
  split.
  - apply (activeTab_shown (store [docA; docB] (Some "gone"))).
    right. exists "gone". split; [reflexivity|].
    simpl. intros [H|[H|[]]]; discriminate H.
  - apply (activeTab_shown (store [docA; docB] (Some "B")) ) with (a := "B").
    + reflexivity.
    + simpl. auto.
Defined.

(** X6. From the empty store, after any sequence of Upsert, Close and
    SetActive operations in which every SetActive names a tab that is
    open at that moment and every Upsert brings a document that no open
    tab matches, the selection names an open tab (and that tab is the
    one shown), or the store is empty and nothing is selected.  In
    particular no Close leaves a selection that names no tab. *)
Theorem selection_always_valid (ops : list Op) :
  opensNewOnly ops initial ->
  selectionValid (run ops initial) /\
  match activeId (run ops initial) with
  | Some a => exists t, activeTab (run ops initial) = Some t /\ id t = a
  | None => activeTab (run ops initial) = None
  end.
Proof.
  intros Hops.
  assert (Hvalid : selectionValid (run ops initial)).
  { apply run_selectionValid; [reflexivity|assumption]. }
  split; [assumption|]. unfold selectionValid in Hvalid.
  destruct (activeId (run ops initial)) as [a|] eqn:Ea.
  - now apply activeTab_of_valid.
  - now apply activeTab_empty.
Qed.

Lemma selection_always_valid_witness :
  selectionValid
    (run [Upsert docA; Upsert docB; SetActive "A"; Close "A"; Close "B"] initial) /\
  match activeId
          (run [Upsert docA; Upsert docB; SetActive "A"; Close "A"; Close "B"]
               initial) with
  | Some a =>
      exists t,
        activeTab (run [Upsert docA; Upsert docB; SetActive "A"; Close "A"; Close "B"]
                       initial) = Some t /\ id t = a
  | None =>
      activeTab (run [Upsert docA; Upsert docB; SetActive "A"; Close "A"; Close "B"]
                     initial) = None
  end.
Proof.
  apply (selection_always_valid
           [Upsert docA; Upsert docB; SetActive "A"; Close "A"; Close "B"]).
  simpl. repeat split; auto.
  intros e [<-|[]] [Hsame _]. discriminate Hsame.
Defined.

Lemma closeTab_absent_state (st : State) (id0 : string) :
  ~ In id0 (map id (tabs st)) -> activeId st <> Some id0 ->
  closeTab id0 st = st.
Proof.
  intros Habs Hne. apply state_eq; try reflexivity.
  - rewrite closeTab_tabs. now rewrite (closeTabs_absent _ _ Habs).
  - now apply closeTab_other_selection.
Qed.

(** X7. Closing an id that no tab carries leaves the tabs as they are.
    The whole state is unchanged unless the selection was that very id
    (a selection that names no tab), in which case the selection is
    cleared. *)
Theorem closeTab_absent (st : State) (id0 : string) :
  ~ In id0 (map id (tabs st)) ->
  tabs (closeTab id0 st) = tabs st /\
  (activeId st <> Some id0 -> closeTab id0 st = st) /\
  (activeId st = Some id0 -> activeId (closeTab id0 st) = None).
Proof.
  intros Habs.
  assert (Ht : tabs (closeTab id0 st) = tabs st).
  { rewrite closeTab_tabs. now rewrite (closeTabs_absent _ _ Habs). }
  split; [assumption|]. split.
  - now apply closeTab_absent_state.
  - intros Ha. rewrite closeTab_activeId, Ha, (closeTabs_absent _ _ Habs).
    now rewrite (proj2 (strictEq_eq _ _) eq_refl).
Qed.

Lemma closeTab_absent_witness :
  tabs (closeTab "Z" (store [docA; docB] (Some "A"))) = [docA; docB] /\
  (Some "A" <> Some "Z" ->
   closeTab "Z" (store [docA; docB] (Some "A")) = store [docA; docB] (Some "A")) /\
  (Some "A" = Some "Z" ->
   activeId (closeTab "Z" (store [docA; docB] (Some "A"))) = None).
Proof.
  apply (closeTab_absent (store [docA; docB] (Some "A")) "Z").
  simpl. intros [H|[H|[]]]; discriminate H.
Defined.

Lemma upsert_twice (r : MarkdownResource) (ts : list MarkdownResource) :
  usableIdentity r -> upsert r (fst (upsert r ts)) = upsert r ts.
Proof.
  intros Hu.
  destruct (upsert_cases r ts) as [(e & Hpos & Hat & Hp & Hup)|[Habs Hup]];
    rewrite Hup; cbn [fst].
  - pose proof (at_some_range _ _ _ Hat) as Hi.
    pose proof (matchesEntry_withId r (id e) e Hp) as Hv.
    unfold upsert at 1. cbv zeta.
    rewrite (findIndex_assign _ _ _ Hpos Hv).
    destruct (Z.leb_spec 0 (findIndex (matchesEntry r) ts)); [|lia].
    rewrite at_assign_same by assumption.
    now rewrite assign_assign.
  - unfold upsert at 1. cbv zeta.
    rewrite (findIndex_snoc_hit _ _ _ Habs (matchesEntry_self r Hu)).
    destruct (Z.leb_spec 0 (Z.of_nat (length ts))); [|lia].
    now rewrite at_last, assign_last, withId_self.
Qed.

(** X8. After a Close no tab carries the closed id, every other tab is
    kept in place, and closing the same id again changes nothing. *)
Theorem closeTab_removes_once (st : State) (id0 : string) :
  ~ In id0 (map id (tabs (closeTab id0 st))) /\
  tabs (closeTab id0 st)
    = filter (fun tab => negb (id tab =? id0)%string) (tabs st) /\
  closeTab id0 (closeTab id0 st) = closeTab id0 st.
Proof.
  assert (Hlack : ~ In id0 (map id (tabs (closeTab id0 st)))).
  { rewrite closeTab_tabs. apply closeTabs_ids_lack. }
  split; [assumption|]. split.
  - rewrite closeTab_tabs.
    destruct (in_dec string_dec id0 (map id (tabs st))) as [Hin|Habs].
    + now rewrite (closeTabs_present_filter _ _ Hin).
    + rewrite (closeTabs_absent _ _ Habs). simpl. symmetry.
      apply filter_keeps_all. intros t Ht.
      apply negb_true_iff, String.eqb_neq. intros <-. apply Habs. now apply in_map.
  - apply (closeTab_absent_state (closeTab id0 st) id0 Hlack).
    rewrite closeTab_activeId.
    destruct (strictEq (activeId st) (Some id0)) eqn:E.
    + intros Hfb. apply closeTabs_fallback_in in Hfb.
      now apply (closeTabs_ids_lack id0 (tabs st)).
    + intros Ha. rewrite Ha in E.
      now rewrite (proj2 (strictEq_eq _ _) eq_refl) in E.
Qed.

(** X9. Opening any batch of documents never closes, reorders or re-keys
    an open tab: the stable ids that were there stay where they are,
    and at most one id per incoming document, taken from the incoming
    documents, is added at the end. *)
Theorem addResource_keeps_ids (rs : list MarkdownResource) (st : State) :
  exists extra,
    map id (tabs (addResource rs st)) = map id (tabs st) ++ extra /\
    (length extra <= length rs)%nat /\
    incl extra (map id rs).
Proof.
  revert st. induction rs as [|r rest IH]; intros st.
  - exists []. rewrite app_nil_r. repeat split; [reflexivity|easy].
  - change (addResource (r :: rest) st) with (addResource rest (applyResource r st)).
    destruct (IH (applyResource r st)) as (extra & Hids & Hlen & Hincl).
    rewrite applyResource_tabs in Hids.
    destruct (upsert_ids r (tabs st)) as [[E _]|[E _]]; rewrite E in Hids.
    + exists extra. split; [assumption|]. split; [simpl; lia|].
      intros a Ha. right. now apply Hincl.
    + rewrite map_app, <- app_assoc in Hids. exists (map id [r] ++ extra).
      split; [assumption|]. split; [simpl; lia|].
      intros a [<-|Ha]; [now left|right; now apply Hincl].
Qed.

(** X10. Upsert is idempotent on the tab collection for a resource whose
    identity can take part in deduplication (any file; a URL document
    with a non-empty identity URL): applying it a second time leaves
    the tabs exactly as the first application left them. *)
Theorem applyResource_idempotent (r : MarkdownResource) (st : State) :
  usableIdentity r ->
  tabs (applyResource r (applyResource r st)) = tabs (applyResource r st).
Proof.
  intros Hu. rewrite !applyResource_tabs. now rewrite upsert_twice.
Qed.

Lemma applyResource_idempotent_witness :
  tabs (applyResource docA' (applyResource docA' (store [docA; docB] (Some "B"))))
    = tabs (applyResource docA' (store [docA; docB] (Some "B"))) /\
  tabs (applyResource readme (applyResource readme (store [docA] (Some "A"))))
    = tabs (applyResource readme (store [docA] (Some "A"))).
Proof.
  split.
  - apply (applyResource_idempotent docA' (store [docA; docB] (Some "B"))).
    discriminate.
  - apply (applyResource_idempotent readme (store [docA] (Some "A"))).
    intros _. reflexivity.
Defined.

(** X11. When the stable ids of the open tabs are pairwise distinct,
    the incoming resource brings an id none of them has, and no open
    tab matches its identity, the document shown after the Upsert is
    the incoming resource, and its id is the selection. *)
Theorem applyResource_shows_resource (r : MarkdownResource) (st : State) :
  NoDup (map id (tabs st)) ->
  ~ In (id r) (map id (tabs st)) ->
  (forall e, In e (tabs st) -> ~ dedupMatch e r) ->
  activeId (applyResource r st) = Some (id r) /\
  activeTab (applyResource r st) = Some r.
Proof.
  intros Hnd Hfresh Hnone. split; [reflexivity|].
  pose proof (upsert_ids_distinct r (tabs st) Hnd Hfresh) as Hnd'.
  unfold activeTab. rewrite applyResource_activeId, applyResource_tabs.
  rewrite (upsert_unmatched _ _ Hnone) in *. cbn [fst] in *.
  pose proof (at_last (tabs st) r) as Hv. apply at_to_nat in Hv as [_ Hv].
  rewrite (find_by_id _ _ _ Hnd' Hv). reflexivity.
Qed.

Lemma applyResource_shows_resource_witness :
  activeId (applyResource docC (store [docA; docB] (Some "A"))) = Some (id docC) /\
  activeTab (applyResource docC (store [docA; docB] (Some "A"))) = Some docC.
Proof.
  apply (applyResource_shows_resource docC (store [docA; docB] (Some "A"))).
  - simpl. repeat constructor; simpl; intuition discriminate.
  - simpl. intros [H|[H|[]]]; discriminate H.
  - intros e [<-|[<-|[]]] [Hsame _]; discriminate Hsame.
Defined.

(** X24. What an Upsert stores can be found again: the collection it
    leaves holds the incoming resource, with all its fields, under its
    own id or under the id of a tab that was open before, and the
    resource's (kind, identity) pair is present. *)
Theorem applyResource_stored (r : MarkdownResource) (st : State) :
  exists kept,
    (kept = id r \/ In kept (map id (tabs st))) /\
    In (withId r kept) (tabs (applyResource r st)) /\
    In (identity r) (map identity (tabs (applyResource r st))).
Proof.
  rewrite applyResource_tabs.
  destruct (upsert_cases r (tabs st)) as [(e & Hpos & Hat & Hp & Hup)|[Habs Hup]];
    rewrite Hup; cbn [fst snd].
  - exists (id e). split; [right; apply in_map; eapply at_In; eauto|].
    pose proof (at_some_range _ _ _ Hat) as Hi.
    pose proof (at_assign_same (tabs st) _ (withId r (id e)) Hi) as Hv.
    apply at_In in Hv. split; [assumption|].
    rewrite <- (identity_withId r (id e)). now apply in_map.
  - exists (id r). split; [now left|]. rewrite withId_self.
    assert (Hin : In r (tabs st ++ [r])) by (apply in_or_app; right; now left).
    split; [assumption|]. now apply in_map.
Qed.

End StoreProperties.

(* ================================================================== *)
(** ** Link classifier: schemes, effects and payloads *)
(* ================================================================== *)

Section ClassifierLemmas.
Import Js Common Renderer Spec.

Lemma testScheme_not_fragment (s : string) :
  testScheme s = true -> s <> "" /\ startsWith s "#" = false.
Proof.
  destruct s as [|c rest]; [discriminate|].
  intros Hs. split; [discriminate|].
  unfold startsWith. cbn [String.prefix].
  destruct (Ascii.ascii_dec "#" c) as [<-|Hne]; [discriminate Hs|reflexivity].
Qed.

Lemma trim_empty : trim "" = "".
Proof. reflexivity. Qed.

Lemma handleClick_intercepts (api : Api) (st : State) (target : string) :
  target <> "" -> startsWith target "#" = false ->
  handleClick api st target =
    match settled (handleLinkActivation api st target) with
    | Ok _ =>
        mkRun (calls (handleLinkActivation api st target))
              (writes (handleLinkActivation api st target)) (Ok tt)
    | Err message =>
        mkRun (calls (handleLinkActivation api st target))
              (fun s => setStatus (Some message)
                          (writes (handleLinkActivation api st target) s))
              (Ok tt)
    end.
Proof.
  intros Hne Hfrag. unfold handleClick.
  apply String.eqb_neq in Hne. now rewrite Hne, Hfrag.
Qed.

End ClassifierLemmas.

Section ClassifierProperties.
Import Js Common Renderer Spec Samples.

(** X12. A link of ASCII characters that starts with a scheme (letters,
    then a colon) and is not a web URL is handed to external-open as
    written (trimmed), whatever the kind of the open document and even
    when the link ends in a markdown extension; nothing is fetched or
    written.  The click is reported handled when the call resolves; when
    it rejects, the activation rejects with the call's message. *)
Theorem scheme_link_external
        (api : Api) (st : State) (active : MarkdownResource) (href0 : string) :
  activeTab st = Some active ->
  isAscii href0 = true ->
  testWebUrl (trim href0) = false ->
  testScheme (trim href0) = true ->
  handleLinkActivation api st href0
    = mkRun [CallOpenExternal (trim href0)] noWrites
            (match openExternal api (trim href0) with
             | Ok _ => Ok true
             | Err message => Err message
             end).
Proof.
  intros Hactive _ Hweb Hscheme.
  destruct (testScheme_not_fragment _ Hscheme) as [Hne Hfrag].
  unfold handleLinkActivation. rewrite Hactive. cbv zeta.
  apply String.eqb_neq in Hne. now rewrite Hne, Hfrag, Hweb, Hscheme.
Qed.

Lemma scheme_link_external_witness :
  handleLinkActivation offline (store [docA] (Some "A")) " mailto:team@example.com"
    = mkRun [CallOpenExternal "mailto:team@example.com"] noWrites (Ok true) /\
  handleLinkActivation stranded (store [readme] (Some "R")) "C:/notes/todo.md"
    = mkRun [CallOpenExternal "C:/notes/todo.md"] noWrites
            (Err "No application is registered for this link").
Proof.
  split.
  - apply (scheme_link_external offline (store [docA] (Some "A")) docA
             " mailto:team@example.com"); reflexivity.
  - apply (scheme_link_external stranded (store [readme] (Some "R")) readme
             "C:/notes/todo.md"); reflexivity.
Defined.

(** X13. One activation of a link makes at most one call, and never
    opens the file dialog.  A click reported unhandled has made no call
    and queued no state write.  An activation that rejects has queued no
    state write, and it has made no call at all unless the rejection is
    that of the external-open call it made. *)
Theorem handleLinkActivation_effects (api : Api) (st : State) (href0 : string) :
  (length (calls (handleLinkActivation api st href0)) <= 1)%nat /\
  ~ In CallOpenFileDialog (calls (handleLinkActivation api st href0)) /\
  (settled (handleLinkActivation api st href0) = Ok false ->
   calls (handleLinkActivation api st href0) = [] /\
   forall s, writes (handleLinkActivation api st href0) s = s) /\
  (forall message,
     settled (handleLinkActivation api st href0) = Err message ->
     (forall s, writes (handleLinkActivation api st href0) s = s) /\
     (calls (handleLinkActivation api st href0) = [] \/
      exists target,
        calls (handleLinkActivation api st href0) = [CallOpenExternal target] /\
        openExternal api target = Err message)).
Proof.
  assert (Hext : forall target,
    (length (calls (openExternally api target)) <= 1)%nat /\
    ~ In CallOpenFileDialog (calls (openExternally api target)) /\
    (settled (openExternally api target) = Ok false ->
     calls (openExternally api target) = [] /\
     forall s, writes (openExternally api target) s = s) /\
    (forall message,
       settled (openExternally api target) = Err message ->
       (forall s, writes (openExternally api target) s = s) /\
       (calls (openExternally api target) = [] \/
        exists target',
          calls (openExternally api target) = [CallOpenExternal target'] /\
          openExternal api target' = Err message))).
  { intros target. unfold openExternally. cbn [calls writes settled].
    split; [simpl; lia|]. split; [intros [H|[]]; discriminate H|].
    destruct (openExternal api target) as [u|m] eqn:E.
    - split; intros; discriminate.
    - split; [discriminate|]. intros message [= <-].
      split; [reflexivity|]. right. exists target. split; [reflexivity|assumption]. }
  unfold handleLinkActivation.
  destruct (activeTab st) as [active|]; cbv zeta;
    [|cbn [calls writes settled]; repeat split; auto; try (intros []); discriminate].
  destruct ((trim href0 =? "")%string || startsWith (trim href0) "#");
    [cbn [calls writes settled]; repeat split; auto; try (intros []); discriminate|].
  destruct (testWebUrl (trim href0)).
  { destruct (isMarkdownLink _); [destruct (openUrl api _)|apply Hext];
      cbn [calls writes settled]; (split; [simpl; lia|]);
      (split; [intros [H|[]]; discriminate H|]); split; intros; discriminate. }
  destruct (testScheme (trim href0)); [apply Hext|].
  destruct (negb (isMarkdownLink (trim href0))).
  { destruct (kind active);
      [cbn [calls writes settled]; repeat split; auto; try (intros []); discriminate|].
    destruct (truthyValue (webBase active));
      [|cbn [calls writes settled]; repeat split; auto; try (intros []); discriminate].
    destruct (newURL api _ _); [apply Hext|].
    cbn [calls writes settled]. split; [simpl; lia|]. split; [intros []|].
    split; [discriminate|]. intros msg _. split; [reflexivity|now left]. }
  destruct (truthyValue (referenceBase active));
    [destruct (openReference api _)|];
    cbn [calls writes settled]; (split; [simpl; lia|]);
    (split; [try (intros [H|[]]; discriminate H); intros []|]);
    split; intros; discriminate.
Qed.

(** X14. When the address of a plain relative link cannot be resolved
    against the base of a URL document ([new URL] throws), the
    activation rejects without calling anything, and the click handler
    turns the rejection into the status message, leaving tabs and
    selection alone. *)
Theorem link_resolution_failure
        (api : Api) (st : State) (active : MarkdownResource)
        (href0 base0 message : string) :
  activeTab st = Some active ->
  kind active = Url ->
  plainRelativeLink href0 ->
  startsWith href0 "#" = false ->
  truthyValue (webBase active) = Some base0 ->
  newURL api (trim href0) base0 = Err message ->
  handleLinkActivation api st href0 = mkRun [] noWrites (Err message) /\
  calls (handleClick api st href0) = [] /\
  settled (handleClick api st href0) = Ok tt /\
  forall s,
    tabs (writes (handleClick api st href0) s) = tabs s /\
    activeId (writes (handleClick api st href0) s) = activeId s /\
    status (writes (handleClick api st href0) s) = Some message.
Proof.
  intros Hactive Hkind Href Hfrag Hbase Hnew.
  assert (Hrun : handleLinkActivation api st href0 = mkRun [] noWrites (Err message)).
  { rewrite (step_plain_relative api st active Hactive href0 Href).
    now rewrite Hkind, Hbase, Hnew. }
  split; [assumption|].
  assert (Hne : href0 <> "").
  { intros ->. destruct Href as [Hempty _]. now apply Hempty. }
  rewrite (handleClick_intercepts api st href0 Hne Hfrag), Hrun.
  cbn [calls writes settled]. repeat split.
Qed.

Lemma link_resolution_failure_witness :
  handleLinkActivation unresolving (store [brokenBaseDoc] (Some "k")) "logo.png"
    = mkRun [] noWrites (Err "Invalid URL") /\
  calls (handleClick unresolving (store [brokenBaseDoc] (Some "k")) "logo.png") = [] /\
  settled (handleClick unresolving (store [brokenBaseDoc] (Some "k")) "logo.png")
    = Ok tt /\
  forall s,
    tabs (writes (handleClick unresolving (store [brokenBaseDoc] (Some "k")) "logo.png") s)
      = tabs s /\
    activeId (writes (handleClick unresolving (store [brokenBaseDoc] (Some "k")) "logo.png") s)
      = activeId s /\
    status (writes (handleClick unresolving (store [brokenBaseDoc] (Some "k")) "logo.png") s)
      = Some "Invalid URL".
Proof.
  apply (link_resolution_failure unresolving (store [brokenBaseDoc] (Some "k"))
           brokenBaseDoc "logo.png" "not a url" "Invalid URL"); try reflexivity.
  unfold plainRelativeLink. cbv zeta. repeat split; try reflexivity. discriminate.
Defined.

(** X15. Every reference request the classifier sends to the main
    process is for a link that ends in a markdown extension and carries
    the trimmed href, the kind of the open document and a non-empty
    base; the main process's handler therefore never answers it with a
    missing-base error but goes on to read or fetch. *)
Theorem reference_payload_complete
        (api : Api) (st : State) (href0 : string) (payload : LinkFollowPayload) :
  In (CallOpenReference payload) (calls (handleLinkActivation api st href0)) ->
  exists active base0,
    activeTab st = Some active /\
    isMarkdownLink (trim href0) = true /\
    payload = mkPayload (trim href0) (kind active) (Some base0) /\
    base0 <> "" /\
    referenceBase active = Some base0 /\
    forall h n,
      Main.handleOpenReference h n payload =
        match kind active with
        | File =>
            Main.readMarkdownFile h n (Main.pathResolve h [base0; trim href0])
        | Url =>
            match Main.resolveUrl h (trim href0) base0 with
            | Err m => Err m
            | Ok resolved => Main.fetchMarkdownUrl h n resolved
            end
        end.
Proof.
  unfold handleLinkActivation.
  destruct (activeTab st) as [active|]; cbv zeta; [|intros []].
  destruct ((trim href0 =? "")%string || startsWith (trim href0) "#"); [intros []|].
  destruct (testWebUrl (trim href0)).
  { destruct (isMarkdownLink _); [destruct (openUrl api _)|];
      cbn [calls]; intros [H|[]]; discriminate H. }
  destruct (testScheme (trim href0)); [cbn [calls]; intros [H|[]]; discriminate H|].
  destruct (isMarkdownLink (trim href0)) eqn:Hmd; cbn [negb].
  2:{ destruct (kind active); [intros []|].
      destruct (truthyValue (webBase active)); [|intros []].
      destruct (newURL api _ _); cbn [calls]; [intros [H|[]]; discriminate H|intros []]. }
  destruct (truthyValue (referenceBase active)) as [base0|] eqn:Hbase; [|intros []].
  apply truthyValue_some in Hbase as [Hbase Hne].
  intros Hin.
  assert (E : payload = mkPayload (trim href0) (kind active) (Some base0)).
  { destruct (openReference api _); cbn [calls] in Hin;
      destruct Hin as [[= <-]|[]]; reflexivity. }
  exists active, base0. repeat split; try assumption.
  intros h n. subst payload. unfold Main.handleOpenReference.
  cbn [origin base href truthyValue].
  apply String.eqb_neq in Hne. rewrite Hne. reflexivity.
Qed.

Lemma reference_payload_complete_witness :
  exists active base0,
    activeTab (store [docA] (Some "A")) = Some active /\
    isMarkdownLink (trim "notes.md#intro") = true /\
    mkPayload "notes.md#intro" File (Some "/docs")
      = mkPayload (trim "notes.md#intro") (kind active) (Some base0) /\
    base0 <> "" /\
    referenceBase active = Some base0 /\
    forall h n,
      Main.handleOpenReference h n (mkPayload "notes.md#intro" File (Some "/docs")) =
        match kind active with
        | File =>
            Main.readMarkdownFile h n
              (Main.pathResolve h [base0; trim "notes.md#intro"])
        | Url =>
            match Main.resolveUrl h (trim "notes.md#intro") base0 with
            | Err m => Err m
            | Ok resolved => Main.fetchMarkdownUrl h n resolved
            end
        end.
Proof.
  apply (reference_payload_complete offline (store [docA] (Some "A"))
           "notes.md#intro" (mkPayload "notes.md#intro" File (Some "/docs"))).
  left. reflexivity.
Defined.

End ClassifierProperties.

(* ================================================================== *)
(** ** Main process: loaders, queue and launch *)
(* ================================================================== *)

Section MainLemmas.
Import Js Common Renderer Spec.
Variable h : Main.Host.

Lemma testHttpUrl_nonempty (s : string) : testHttpUrl s = true -> s <> "".
Proof. intros H ->. discriminate H. Qed.

Lemma fetchMarkdownUrl_shape (n : nat) (target : string) (r : MarkdownResource) :
  Main.fetchMarkdownUrl h n target = Ok r ->
  exists response parsed,
    Main.fetch h target = Ok response /\ Main.ok response = true /\
    Main.parseUrl h
      (if (Main.responseUrl response =? "")%string then target
       else Main.responseUrl response) = Ok parsed /\
    r = mkResource (Main.randomUUID h n)
          (Main.lastSegmentOr (Main.split "/" (Main.pathname parsed)) (Main.host parsed))
          (Main.text response) (Main.dateNow h n) Url None (Some target)
          (Some (if (Main.responseUrl response =? "")%string then target
                 else Main.responseUrl response))
          None
          (Some (if (Main.responseUrl response =? "")%string then target
                 else Main.responseUrl response)).
Proof.
  unfold Main.fetchMarkdownUrl.
  destruct (Main.fetch h target) as [response|m]; [|discriminate].
  destruct (Main.ok response) eqn:Hok; cbn [negb]; [|discriminate].
  cbv zeta. destruct (Main.parseUrl h _) as [parsed|m] eqn:Hp; [|discriminate].
  intros [= <-]. exists response, parsed. repeat split; assumption.
Qed.

Lemma fetchMarkdownUrl_usable (n : nat) (target : string) (r : MarkdownResource) :
  target <> "" -> Main.fetchMarkdownUrl h n target = Ok r ->
  kind r = Url /\ identityPopulated r /\ truthy (referenceBase r) = true.
Proof.
  intros Hne Hr.
  destruct (fetchMarkdownUrl_shape n target r Hr) as (response & parsed & _ & _ & _ & ->).
  unfold identityPopulated, populated, identityValue, referenceBase, webBase, truthy.
  cbn [kind finalUrl url baseUrl nullish truthyValue].
  destruct (String.eqb_spec (Main.responseUrl response) "") as [E|Hr'].
  - apply String.eqb_neq in Hne. rewrite Hne. repeat split.
  - apply String.eqb_neq in Hr'. rewrite Hr'. repeat split.
Qed.

Lemma readMarkdownFile_kind (n : nat) (target : string) (r : MarkdownResource) :
  Main.readMarkdownFile h n target = Ok r ->
  kind r = File /\ path r = Some (Main.pathResolve h [target]).
Proof.
  unfold Main.readMarkdownFile. cbv zeta.
  destruct (Main.readFile h _); [|discriminate].
  intros [= <-]. split; reflexivity.
Qed.

Lemma readAll_files (n : nat) (files : list string) (rs : list MarkdownResource) :
  Main.readAll h n files = Ok rs ->
  map path rs = map (fun f => Some (Main.pathResolve h [f])) files /\
  Forall (fun r => kind r = File) rs.
Proof.
  revert n rs. induction files as [|f rest IH]; intros n rs; cbn [Main.readAll].
  - intros [= <-]. split; [reflexivity|constructor].
  - destruct (Main.readMarkdownFile h n f) as [r|m] eqn:Hr; [|discriminate].
    destruct (Main.readAll h (S n) rest) as [rs'|m] eqn:Hrest; [|discriminate].
    intros [= <-]. destruct (IH _ _ Hrest) as [Hpaths Hkinds].
    destruct (readMarkdownFile_kind _ _ _ Hr) as [Hk Hp].
    split; [simpl; now rewrite Hp, Hpaths|now constructor].
Qed.

Lemma readAll_failure (n : nat) (files : list string) (m : string) :
  Main.readAll h n files = Err m ->
  exists f, In f files /\ Main.readFile h (Main.pathResolve h [f]) = Err m.
Proof.
  revert n. induction files as [|f rest IH]; intros n; cbn [Main.readAll];
    [discriminate|].
  destruct (Main.readMarkdownFile h n f) as [r|m'] eqn:Hr.
  - destruct (Main.readAll h (S n) rest) as [rs'|m'] eqn:Hrest; [discriminate|].
    intros [= <-]. destruct (IH _ Hrest) as (f' & Hin & Hf').
    exists f'. split; [now right|assumption].
  - intros [= <-]. exists f. split; [now left|].
    unfold Main.readMarkdownFile in Hr. cbv zeta in Hr.
    destruct (Main.readFile h _); [discriminate|]. now injection Hr as ->.
Qed.

Lemma publishAll_queued (rs : list MarkdownResource) (ms : Main.MainState) :
  Main.rendererReady ms && Main.mainWindow ms = false ->
  Main.publishAll rs ms =
    (Main.mkMain (Main.mainWindow ms) (Main.rendererReady ms)
                 (Main.pendingResources ms ++ rs) (Main.loads ms), []).
Proof.
  revert ms. induction rs as [|r rest IH]; intros ms Hoff; cbn [Main.publishAll].
  - rewrite app_nil_r. now destruct ms.
  - unfold Main.publishResource. rewrite Hoff. rewrite IH by exact Hoff.
    cbn [Main.mainWindow Main.rendererReady Main.pendingResources Main.loads app].
    now rewrite <- app_assoc.
Qed.

Lemma publishAll_sent (rs : list MarkdownResource) (ms : Main.MainState) :
  Main.rendererReady ms && Main.mainWindow ms = true ->
  Main.publishAll rs ms = (ms, map sentOpened rs).
Proof.
  intros Hon. induction rs as [|r rest IH]; cbn [Main.publishAll]; [reflexivity|].
  unfold Main.publishResource. rewrite Hon, IH. reflexivity.
Qed.

Lemma opened_sent (rs : list MarkdownResource) : opened (map sentOpened rs) = rs.
Proof. induction rs as [|r rest IH]; simpl; [reflexivity|now rewrite IH]. Qed.

Lemma opened_app (a b : list Main.Event) : opened (a ++ b) = opened a ++ opened b.
Proof.
  induction a as [|e rest IH]; [reflexivity|].
  destruct e as [l|[r|m]]; simpl; now rewrite ?IH.
Qed.

Lemma started_app (a b : list Main.Event) : started (a ++ b) = started a ++ started b.
Proof.
  induction a as [|e rest IH]; [reflexivity|].
  destruct e as [l|m]; simpl; now rewrite ?IH.
Qed.

Lemma deliverResource_events (loader : Result MarkdownResource) (ms : Main.MainState) :
  started (snd (Main.deliverResource loader ms)) = [] /\
  Main.loads (fst (Main.deliverResource loader ms)) = Main.loads ms /\
  forall r, In r (opened (snd (Main.deliverResource loader ms))) -> loader = Ok r.
Proof.
  unfold Main.deliverResource, Main.publishResource.
  destruct loader as [r|m].
  - destruct (Main.rendererReady ms && Main.mainWindow ms); simpl.
    + repeat split. intros r' [<-|[]]. reflexivity.
    + repeat split. intros r' [].
  - destruct (Main.mainWindow ms); simpl; repeat split; intros r' [].
Qed.

Lemma openTarget_events (arg : string) (ms : Main.MainState) :
  started (snd (Main.openTarget h arg ms))
    = (if isTarget arg then [loaderOf arg] else []) /\
  Main.loads (fst (Main.openTarget h arg ms))
    = ((if isTarget arg then 1 else 0) + Main.loads ms)%nat /\
  forall r, In r (opened (snd (Main.openTarget h arg ms))) -> usableIdentity r.
Proof.
  unfold Main.openTarget, isTarget, loaderOf.
  destruct (testHttpUrl arg) eqn:Hhttp; cbn [orb].
  - pose proof (deliverResource_events
                  (Main.fetchMarkdownUrl h (Main.loads ms) arg) (Main.tick ms))
      as (Hs & Hl & Ho).
    destruct (Main.deliverResource _ _) as [ms' events]. cbn [fst snd] in *.
    cbn [started opened]. rewrite Hs, Hl. repeat split.
    intros r Hr _. apply Ho in Hr.
    apply (fetchMarkdownUrl_usable _ _ _ (testHttpUrl_nonempty _ Hhttp) Hr).
  - destruct (Main.isMarkdownPath arg).
    + pose proof (deliverResource_events
                    (Main.readMarkdownFile h (Main.loads ms) arg) (Main.tick ms))
        as (Hs & Hl & Ho).
      destruct (Main.deliverResource _ _) as [ms' events]. cbn [fst snd] in *.
      cbn [started opened]. rewrite Hs, Hl. repeat split.
      intros r Hr Hk. apply Ho in Hr. apply readMarkdownFile_kind in Hr as [Hf _].
      congruence.
    + simpl. repeat split. intros r [].
Qed.

Lemma openTargets_events (args : list string) (ms : Main.MainState) :
  started (snd (Main.openTargets h args ms)) = map loaderOf (filter isTarget args) /\
  Main.loads (fst (Main.openTargets h args ms))
    = (length (filter isTarget args) + Main.loads ms)%nat /\
  forall r, In r (opened (snd (Main.openTargets h args ms))) -> usableIdentity r.
Proof.
  revert ms. induction args as [|arg rest IH]; intros ms; cbn [Main.openTargets].
  - simpl. repeat split. intros r [].
  - pose proof (openTarget_events arg ms) as (Hs1 & Hl1 & Ho1).
    destruct (Main.openTarget h arg ms) as [ms1 events1]. cbn [fst snd] in *.
    pose proof (IH ms1) as (Hs2 & Hl2 & Ho2).
    destruct (Main.openTargets h rest ms1) as [ms2 events2]. cbn [fst snd] in *.
    rewrite started_app, opened_app, Hs1, Hs2, Hl2, Hl1. cbn [filter].
    destruct (isTarget arg); cbn [map length app]; repeat split; try lia.
    + intros r Hr. apply in_app_or in Hr as [Hr|Hr]; auto.
    + intros r Hr. apply in_app_or in Hr as [Hr|Hr]; auto.
Qed.

End MainLemmas.

Section PipelineLemmas.
Import Js Common Renderer Spec.

Lemma upsert_unique_usable (r : MarkdownResource) (prev : list MarkdownResource) :
  usableIdentity r -> uniqueIdentities prev ->
  uniqueIdentities (fst (upsert r prev)).
Proof.
  intros Hu Hnd. unfold uniqueIdentities in *.
  destruct (upsert_cases r prev) as [(e & Hpos & Hat & Hp & ->)|[Habs ->]];
    cbn [fst].
  - apply matchesEntry_dedupMatch in Hp as [Hsame _].
    rewrite (map_assign_same identity prev _ e); [assumption|assumption|].
    rewrite identity_withId. symmetry. exact Hsame.
  - rewrite findIndex_absent in Habs. rewrite map_app. simpl.
    apply NoDup_app; [assumption|repeat constructor; intros []|].
    intros key Hin [<-|[]].
    apply in_map_iff in Hin as (e & Hsame & He).
    specialize (Habs e He). apply matchesEntry_false in Habs. apply Habs.
    split; [exact Hsame|exact Hu].
Qed.

Lemma receiveAll_unique (events : list Main.Event) (st : State) :
  (forall r, In r (opened events) -> usableIdentity r) ->
  uniqueIdentities (tabs st) ->
  uniqueIdentities (tabs (Bridge.receiveAll events st)).
Proof.
  revert st. induction events as [|e rest IH]; intros st Hu Hnd; [assumption|].
  change (Bridge.receiveAll (e :: rest) st)
    with (Bridge.receiveAll rest (Bridge.receive st e)).
  destruct e as [l|[r|m]]; cbn [Bridge.receive opened] in *.
  - now apply IH.
  - apply IH; [intros r' Hr'; apply Hu; now right|].
    change (onResourceOpened r st) with (applyResource r st).
    rewrite applyResource_tabs. apply upsert_unique_usable; [|assumption].
    apply Hu. now left.
  - now apply IH.
Qed.

Lemma loaderOf_injective (a b : string) : loaderOf a = loaderOf b -> a = b.
Proof.
  unfold loaderOf. destruct (testHttpUrl a), (testHttpUrl b); congruence.
Qed.

End PipelineLemmas.

Section MainProperties.
Import Js Common Renderer Spec Samples.

(** X16. The URL handler of the main process refuses, with a fixed
    message, any address that does not pass the http(s) test.  A
    resource it does return is a URL document that records the requested
    address, has no path, uses its final URL as its base, and so has a
    populated identity and a base to resolve links against. *)
Theorem open_url_resource (h : Main.Host) (n : nat) (target : string) :
  (testHttpUrl target = false ->
   Main.handleOpenUrl h n target = Err "Only http(s) urls are supported") /\
  (forall r,
     Main.handleOpenUrl h n target = Ok r ->
     testHttpUrl target = true /\
     kind r = Url /\ url r = Some target /\ path r = None /\
     finalUrl r = baseUrl r /\
     identityPopulated r /\ truthy (referenceBase r) = true).
Proof.
  unfold Main.handleOpenUrl. split.
  - intros ->. reflexivity.
  - intros r. destruct (testHttpUrl target) eqn:Hhttp; cbn [negb]; [|discriminate].
    intros Hr. split; [reflexivity|].
    destruct (fetchMarkdownUrl_usable h n target r
                (testHttpUrl_nonempty _ Hhttp) Hr) as (Hk & Hid & Hbase).
    destruct (fetchMarkdownUrl_shape h n target r Hr) as (resp & parsed & _ & _ & _ & E).
    split; [assumption|]. rewrite E at 1 2 3 4. cbn [url path finalUrl baseUrl].
    repeat split; assumption.
Qed.

Lemma open_url_resource_witness :
  Main.handleOpenUrl deskHost 0 "ftp://example.com/readme.md"
    = Err "Only http(s) urls are supported" /\
  (testHttpUrl "https://example.com/docs/readme.md" = true /\
   kind (webDoc "uuid-0" "https://example.com/docs/readme.md" "# readme") = Url /\
   identityPopulated (webDoc "uuid-0" "https://example.com/docs/readme.md" "# readme")).
Proof.
  split.
  - apply (open_url_resource deskHost 0 "ftp://example.com/readme.md"). reflexivity.
  - destruct (open_url_resource deskHost 0 "https://example.com/docs/readme.md")
      as [_ Hok].
    destruct (Hok (mkResource "uuid-0" "readme.md" "# readme" 0 Url None
                     (Some "https://example.com/docs/readme.md")
                     (Some "https://example.com/docs/readme.md") None
                     (Some "https://example.com/docs/readme.md")) eq_refl)
      as (Hhttp & _).
    split; [exact Hhttp|]. split; reflexivity.
Defined.

(** X17. With a window open: resources published before the renderer
    has signalled readiness are sent to nobody but queued, and the
    readiness signal sends everything queued, oldest first, exactly
    once; after the signal, resources are sent at once, in order, and
    nothing is queued. *)
Theorem pending_delivered_in_order
        (rs : list MarkdownResource) (ms : Main.MainState) :
  Main.mainWindow ms = true ->
  (Main.rendererReady ms = false ->
   snd (Main.publishAll rs ms) = [] /\
   snd (Main.onRendererReady (fst (Main.publishAll rs ms)))
     = map sentOpened (Main.pendingResources ms ++ rs) /\
   Main.pendingResources (fst (Main.onRendererReady (fst (Main.publishAll rs ms))))
     = [] /\
   snd (Main.flushPending (fst (Main.onRendererReady (fst (Main.publishAll rs ms)))))
     = []) /\
  (Main.rendererReady ms = true ->
   Main.publishAll rs ms = (ms, map sentOpened rs)).
Proof.
  intros Hwin. split.
  - intros Hoff. rewrite publishAll_queued by (rewrite Hoff; reflexivity).
    cbn [fst snd]. unfold Main.onRendererReady, Main.flushPending.
    cbn [Main.mainWindow Main.rendererReady Main.pendingResources Main.loads].
    rewrite Hwin. cbn [negb orb fst snd map].
    cbn [Main.mainWindow Main.rendererReady Main.pendingResources negb orb snd map].
    repeat split.
  - intros Hon. apply publishAll_sent. now rewrite Hon, Hwin.
Qed.

Lemma pending_delivered_in_order_witness :
  (false = false ->
   snd (Main.publishAll [docB; docC] windowLoading) = [] /\
   snd (Main.onRendererReady (fst (Main.publishAll [docB; docC] windowLoading)))
     = map sentOpened ([docA] ++ [docB; docC]) /\
   Main.pendingResources
     (fst (Main.onRendererReady (fst (Main.publishAll [docB; docC] windowLoading))))
     = [] /\
   snd (Main.flushPending
          (fst (Main.onRendererReady (fst (Main.publishAll [docB; docC] windowLoading)))))
     = []) /\
  (false = true ->
   Main.publishAll [docB; docC] windowLoading
     = (windowLoading, map sentOpened [docB; docC])).
Proof.
  apply (pending_delivered_in_order [docB; docC] windowLoading). reflexivity.
Defined.

(** X18. A launch over ASCII arguments starts one loader per argument
    that survives the cut (past the executable entries: the first one
    in a packaged build, the first two otherwise; and not a [--] flag)
    and is an http(s) address or ends in a markdown extension: in
    argument order, the URL loader for an address and the file loader
    otherwise.  No flag, no executable entry and nothing that is not on
    the command line is ever loaded. *)
Theorem launch_loaders (h : Main.Host) (argv : list string) (ms : Main.MainState) :
  forallb isAscii argv = true ->
  let past := skipn (if Main.isPackaged h then 1 else 2)%nat argv in
  let kept :=
    filter isTarget (filter (fun arg => negb (startsWith arg "--")) past) in
  started (snd (Main.parseArgTargets h argv ms)) = map loaderOf kept /\
  Main.loads (fst (Main.parseArgTargets h argv ms))
    = (length kept + Main.loads ms)%nat /\
  (forall arg,
     In (loaderOf arg) (started (snd (Main.parseArgTargets h argv ms))) <->
     In arg past /\ startsWith arg "--" = false /\ isTarget arg = true).
Proof.
  intros _. cbv zeta. unfold Main.parseArgTargets.
  destruct (openTargets_events h (Main.candidates h argv) ms) as (Hs & Hl & _).
  split; [exact Hs|]. split; [exact Hl|].
  intros arg. rewrite Hs. unfold Main.candidates. cbv zeta. split.
  - intros Hin.
    apply in_map_iff in Hin as (arg' & E & Hin).
    apply loaderOf_injective in E. subst arg'.
    apply filter_In in Hin as [Hin Ht].
    apply filter_In in Hin as [Hin Hflag].
    apply negb_true_iff in Hflag. repeat split; assumption.
  - intros (Hin & Hflag & Ht). apply in_map.
    apply filter_In. split; [|assumption].
    apply filter_In. split; [assumption|]. now rewrite Hflag.
Qed.

Lemma launch_loaders_witness :
  started (snd (Main.parseArgTargets deskHost
                  ["electron"; "/docs/a.md"; "--inspect"; "notes.txt";
                   "HTTPS://example.com/x"; "b.MD"] windowReady))
    = [Main.LoadUrl "HTTPS://example.com/x"; Main.LoadFile "b.MD"] /\
  Main.loads (fst (Main.parseArgTargets deskHost
                     ["electron"; "/docs/a.md"; "--inspect"; "notes.txt";
                      "HTTPS://example.com/x"; "b.MD"] windowReady))
    = 2%nat /\
  (forall arg,
     In (loaderOf arg)
        (started (snd (Main.parseArgTargets deskHost
                         ["electron"; "/docs/a.md"; "--inspect"; "notes.txt";
                          "HTTPS://example.com/x"; "b.MD"] windowReady))) <->
     In arg ["--inspect"; "notes.txt"; "HTTPS://example.com/x"; "b.MD"] /\
     startsWith arg "--" = false /\ isTarget arg = true).
Proof.
  apply (launch_loaders deskHost
           ["electron"; "/docs/a.md"; "--inspect"; "notes.txt";
            "HTTPS://example.com/x"; "b.MD"] windowReady).
  reflexivity.
Defined.

(** X19. Whatever the command line and whatever the files and the
    network answer, delivering what a launch, or an open from the menu,
    sends to the renderer keeps the tab collection at one entry per
    (kind, identity) pair. *)
Theorem launch_keeps_identities_unique
        (h : Main.Host) (argv : list string) (answer : Result Main.DialogAnswer)
        (ms : Main.MainState) (st : State) :
  uniqueIdentities (tabs st) ->
  uniqueIdentities
    (tabs (Bridge.receiveAll (snd (Main.parseArgTargets h argv ms)) st)) /\
  uniqueIdentities
    (tabs (Bridge.receiveAll (snd (Main.openFilesFromMenu h answer ms)) st)).
Proof.
  intros Hnd. split.
  - apply receiveAll_unique; [|assumption].
    apply (openTargets_events h (Main.candidates h argv) ms).
  - apply receiveAll_unique; [|assumption].
    unfold Main.openFilesFromMenu, Main.handleOpenDialog.
    destruct (Main.mainWindow ms) eqn:Hwin; cbn [negb].
    2:{ cbn [Main.publishAll snd opened]. intros r []. }
    destruct answer as [chosen|m].
    2:{ rewrite Hwin. cbn [snd opened]. intros r []. }
    destruct (Main.canceled chosen || (length (Main.filePaths chosen) =? 0)%nat).
    { cbn [Main.publishAll snd opened]. intros r []. }
    destruct (Main.readAll h (Main.loads ms) (Main.filePaths chosen)) as [rs|m] eqn:Hread.
    + destruct (readAll_files h _ _ _ Hread) as [_ Hkinds].
      unfold Main.advance. set (ms1 := Main.mkMain _ _ _ _).
      destruct (Main.rendererReady ms1 && Main.mainWindow ms1) eqn:Hon.
      * rewrite publishAll_sent by assumption. cbn [snd]. rewrite opened_sent.
        intros r Hr Hk. rewrite Forall_forall in Hkinds.
        specialize (Hkinds r Hr). congruence.
      * rewrite publishAll_queued by assumption. cbn [snd opened]. intros r [].
    + unfold Main.advance. cbn [Main.mainWindow]. rewrite Hwin.
      cbn [snd opened]. intros r [].
Qed.

Lemma launch_keeps_identities_unique_witness :
  uniqueIdentities
    (tabs (Bridge.receiveAll
             (snd (Main.parseArgTargets deskHost
                     ["electron"; "."; "/docs/a.md";
                      "https://example.com/docs/readme.md"; "/docs/a.md"]
                     windowReady))
             initial)) /\
  uniqueIdentities
    (tabs (Bridge.receiveAll
             (snd (Main.openFilesFromMenu deskHost
                     (Ok (Main.mkAnswer false ["/docs/a.md"; "/docs/a.md"]))
                     windowReady))
             initial)).
Proof.
  apply (launch_keeps_identities_unique deskHost
           ["electron"; "."; "/docs/a.md";
            "https://example.com/docs/readme.md"; "/docs/a.md"]
           (Ok (Main.mkAnswer false ["/docs/a.md"; "/docs/a.md"]))
           windowReady initial).
  constructor.
Defined.

End MainProperties.

(* ================================================================== *)
(** ** Main process: menus, titles and escaping *)
(* ================================================================== *)

Section ShellLemmas.
Import Js Common Renderer Spec.

Lemma readAll_total (h : Main.Host) (n : nat) (files : list string) :
  (forall f, In f files -> exists c, Main.readFile h (Main.pathResolve h [f]) = Ok c) ->
  exists rs, Main.readAll h n files = Ok rs.
Proof.
  revert n. induction files as [|f rest IH]; intros n Hall; cbn [Main.readAll];
    [eauto|].
  destruct (Hall f (or_introl eq_refl)) as [c Hc].
  unfold Main.readMarkdownFile. cbv zeta. rewrite Hc.
  destruct (IH (S n)) as [rs Hrs]; [intros g Hg; apply Hall; now right|].
  rewrite Hrs. eauto.
Qed.

Lemma readAll_readable (h : Main.Host) (n : nat) (files : list string)
      (rs : list MarkdownResource) :
  Main.readAll h n files = Ok rs ->
  forall f, In f files -> exists c, Main.readFile h (Main.pathResolve h [f]) = Ok c.
Proof.
  revert n rs. induction files as [|f rest IH]; intros n rs; cbn [Main.readAll];
    [intros _ g []|].
  destruct (Main.readMarkdownFile h n f) as [r|m] eqn:Hr; [|discriminate].
  destruct (Main.readAll h (S n) rest) as [rs'|m] eqn:Hrest; [|discriminate].
  intros _ g [<-|Hg]; [|eapply IH; eauto].
  unfold Main.readMarkdownFile in Hr. cbv zeta in Hr.
  destruct (Main.readFile h _) as [c|]; [eauto|discriminate].
Qed.

Lemma split_lacks (sep : ascii) (s seg : string) :
  In seg (Main.split sep s) -> lacks sep seg.
Proof.
  revert seg. induction s as [|c rest IH]; intros seg; cbn [Main.split].
  - intros [<-|[]]. exact I.
  - destruct (Ascii.eqb_spec c sep) as [->|Hne].
    + intros [<-|Hin]; [exact I|now apply IH].
    + destruct (Main.split sep rest) as [|first others] eqn:E.
      * intros [<-|[]]. split; [assumption|exact I].
      * intros [<-|Hin].
        -- split; [assumption|]. apply IH. now left.
        -- apply IH. now right.
Qed.

Lemma split_only (sep : ascii) (s seg : string) :
  onlyChar sep s -> In seg (Main.split sep s) -> seg = "".
Proof.
  revert seg. induction s as [|c rest IH]; intros seg; cbn [Main.split onlyChar].
  - intros _ [<-|[]]. reflexivity.
  - intros [-> Hrest]. rewrite Ascii.eqb_refl. intros [<-|Hin]; [reflexivity|].
    now apply IH.
Qed.

Lemma lastSegmentOr_cases (segments : list string) (fallback : string) :
  Main.lastSegmentOr segments fallback = fallback \/
  (In (Main.lastSegmentOr segments fallback) segments /\
   Main.lastSegmentOr segments fallback <> "").
Proof.
  unfold Main.lastSegmentOr.
  destruct (rev (filter _ segments)) as [|last0 others] eqn:E; [now left|].
  right. assert (Hin : In last0 (rev (filter (fun seg => negb (seg =? "")%string) segments))).
  { rewrite E. now left. }
  apply in_rev, filter_In in Hin as [Hin Hne].
  split; [assumption|]. now apply negb_true_iff, String.eqb_neq in Hne.
Qed.

Lemma lastSegmentOr_empty (segments : list string) (fallback : string) :
  (forall seg, In seg segments -> seg = "") ->
  Main.lastSegmentOr segments fallback = fallback.
Proof.
  intros Hall. destruct (lastSegmentOr_cases segments fallback) as [E|[Hin Hne]];
    [assumption|]. now apply Hall in Hin.
Qed.

Lemma split_nonempty (sep : ascii) (s : string) : Main.split sep s <> [].
Proof.
  destruct s as [|c rest]; cbn [Main.split]; [discriminate|].
  destruct (Ascii.eqb c sep); [discriminate|].
  destruct (Main.split sep rest); discriminate.
Qed.

Lemma split_app (sep : ascii) (a b : string) :
  Main.split sep (a ++ String sep b) = Main.split sep a ++ Main.split sep b.
Proof.
  induction a as [|c rest IH]; cbn [append Main.split].
  - now rewrite Ascii.eqb_refl.
  - destruct (Ascii.eqb c sep); [now rewrite IH|].
    rewrite IH. pose proof (split_nonempty sep rest) as Hne.
    destruct (Main.split sep rest) as [|first others]; [contradiction|].
    reflexivity.
Qed.

Lemma split_whole (sep : ascii) (s : string) :
  lacks sep s -> Main.split sep s = [s].
Proof.
  induction s as [|c rest IH]; cbn [Main.split lacks]; [reflexivity|].
  intros [Hne Hrest]. destruct (Ascii.eqb_spec c sep); [contradiction|].
  now rewrite IH.
Qed.

Lemma filter_segments_blank (segments : list string) :
  (forall seg, In seg segments -> seg = "") ->
  filter (fun seg => negb (seg =? "")%string) segments = [].
Proof.
  induction segments as [|seg rest IH]; [reflexivity|].
  intros Hall. cbn [filter]. rewrite (Hall seg) by now left.
  cbn. apply IH. intros x Hx. apply Hall. now right.
Qed.

Lemma lastSegmentOr_last (before after : list string) (seg fallback : string) :
  seg <> "" -> (forall x, In x after -> x = "") ->
  Main.lastSegmentOr (before ++ seg :: after) fallback = seg.
Proof.
  intros Hne Hafter. unfold Main.lastSegmentOr.
  rewrite filter_app. cbn [filter].
  apply String.eqb_neq in Hne. rewrite Hne. cbn [negb].
  rewrite (filter_segments_blank after Hafter).
  rewrite rev_app_distr. reflexivity.
Qed.

Lemma append_empty (s : string) : (s ++ "")%string = s.
Proof. induction s as [|c rest IH]; cbn [append]; [reflexivity|now rewrite IH]. Qed.

Lemma split_last_segment (prefix seg slashes : string) :
  lacks "/" seg -> onlyChar "/" slashes ->
  exists before after,
    Main.split "/" (prefix ++ String "/" (seg ++ slashes)) = before ++ seg :: after /\
    forall x, In x after -> x = "".
Proof.
  intros Hseg Hslashes. rewrite split_app.
  exists (Main.split "/" prefix).
  destruct slashes as [|c rest].
  - exists []. rewrite append_empty, (split_whole _ _ Hseg).
    split; [reflexivity|intros x []].
  - destruct Hslashes as [-> Hrest].
    exists (Main.split "/" rest).
    rewrite split_app, (split_whole _ _ Hseg).
    split; [reflexivity|]. intros x Hx. eapply split_only; eauto.
Qed.

Lemma replaceAll_other (c x : ascii) (replacement rest : string) :
  x <> c ->
  Main.replaceAll c replacement (String x rest)
    = String x (Main.replaceAll c replacement rest).
Proof.
  intros Hne. cbn [Main.replaceAll]. destruct (Ascii.eqb_spec x c); [contradiction|].
  reflexivity.
Qed.

Lemma escapeHtml_escapeEach (s : string) : Main.escapeHtml s = escapeEach s.
Proof.
  unfold Main.escapeHtml. induction s as [|x rest IH]; [reflexivity|].
  cbn [escapeEach]. rewrite <- IH. unfold escapeChar.
  destruct (Ascii.eqb_spec x "&") as [->|Hamp]; [reflexivity|].
  rewrite (replaceAll_other "&" x) by assumption.
  destruct (Ascii.eqb_spec x "<") as [->|Hlt]; [reflexivity|].
  rewrite (replaceAll_other "<" x) by assumption.
  destruct (Ascii.eqb_spec x ">") as [->|Hgt].
  - cbn [Main.replaceAll]. rewrite Ascii.eqb_refl. reflexivity.
  - rewrite (replaceAll_other ">" x) by assumption. reflexivity.
Qed.

Lemma lacks_app (c : ascii) (s t : string) :
  lacks c s -> lacks c t -> lacks c (s ++ t).
Proof.
  induction s as [|x rest IH]; cbn [append lacks]; [auto|].
  intros [Hx Hrest] Ht. split; [assumption|auto].
Qed.

Lemma escapeChar_lacks (x : ascii) :
  lacks "<" (escapeChar x) /\ lacks ">" (escapeChar x).
Proof.
  unfold escapeChar.
  destruct (Ascii.eqb_spec x "&"); [split; cbn; intuition discriminate|].
  destruct (Ascii.eqb_spec x "<"); [split; cbn; intuition discriminate|].
  destruct (Ascii.eqb_spec x ">"); [split; cbn; intuition discriminate|].
  split; cbn; auto.
Qed.

Lemma escapeEach_lacks (s : string) :
  lacks "<" (escapeEach s) /\ lacks ">" (escapeEach s).
Proof.
  induction s as [|x rest [IHl IHg]]; cbn [escapeEach]; [split; exact I|].
  destruct (escapeChar_lacks x). split; now apply lacks_app.
Qed.

Lemma escapeEach_injective (s t : string) :
  escapeEach s = escapeEach t -> s = t.
Proof.
  revert t. induction s as [|x rest IH]; intros [|y rest'].
  - reflexivity.
  - cbn [escapeEach]. unfold escapeChar.
    destruct (Ascii.eqb y "&"); [discriminate|].
    destruct (Ascii.eqb y "<"); [discriminate|].
    destruct (Ascii.eqb y ">"); discriminate.
  - cbn [escapeEach]. unfold escapeChar.
    destruct (Ascii.eqb x "&"); [discriminate|].
    destruct (Ascii.eqb x "<"); [discriminate|].
    destruct (Ascii.eqb x ">"); discriminate.
  - cbn [escapeEach]. unfold escapeChar.
    destruct (Ascii.eqb_spec x "&") as [->|Hxa];
      [|destruct (Ascii.eqb_spec x "<") as [->|Hxl];
        [|destruct (Ascii.eqb_spec x ">") as [->|Hxg]]];
    (destruct (Ascii.eqb_spec y "&") as [->|Hya];
      [|destruct (Ascii.eqb_spec y "<") as [->|Hyl];
        [|destruct (Ascii.eqb_spec y ">") as [->|Hyg]]]);
    cbn [append]; intros E; try discriminate E;
    try (injection E as E; f_equal; now apply IH);
    try (injection E as E1 E2; congruence).
    injection E as -> E. f_equal. now apply IH.
Qed.

Lemma escapeEach_plain (s : string) :
  lacks "&" s -> lacks "<" s -> lacks ">" s -> escapeEach s = s.
Proof.
  induction s as [|x rest IH]; cbn [lacks escapeEach]; [reflexivity|].
  intros [Ha Hra] [Hl Hrl] [Hg Hrg]. unfold escapeChar.
  destruct (Ascii.eqb_spec x "&"); [contradiction|].
  destruct (Ascii.eqb_spec x "<"); [contradiction|].
  destruct (Ascii.eqb_spec x ">"); [contradiction|].
  cbn [append]. now rewrite IH.
Qed.

End ShellLemmas.

Section ShellProperties.
Import Js Common Renderer Spec Samples.

(** X20. The context menu is never empty.  It consists of the single
    disabled placeholder exactly when the payload carries no selection,
    no link and no diagram id; otherwise every entry is enabled, and
    there is one entry per selection and link and a separator with two
    zoom entries for a diagram. *)
Theorem context_menu_never_empty (payload : ContextMenuPayload) :
  Main.contextMenuTemplate payload <> [] /\
  (truthy (selectionText payload) = false /\ truthy (link payload) = false /\
   truthy (mermaidId payload) = false <->
   Main.contextMenuTemplate payload = [Main.Entry "No actions" None false None]) /\
  (forall label accelerator click,
     In (Main.Entry label accelerator false click) (Main.contextMenuTemplate payload) ->
     Main.contextMenuTemplate payload = [Main.Entry "No actions" None false None]) /\
  length (Main.contextMenuTemplate payload)
    = Nat.max 1 (Nat.b2n (truthy (selectionText payload))
                 + Nat.b2n (truthy (link payload))
                 + 3 * Nat.b2n (truthy (mermaidId payload)))%nat.
Proof.
  unfold Main.contextMenuTemplate, truthy.
  destruct (truthyValue (selectionText payload)) as [sel|],
           (truthyValue (link payload)) as [lnk|],
           (truthyValue (mermaidId payload)) as [mid|]; cbn.
  all: split; [discriminate|].
  all: split; [split; [intros (H1 & H2 & H3); try discriminate; reflexivity
                      |intros H; try discriminate H; auto]|].
  all: split; [|reflexivity].
  all: intros label accelerator click Hin; try reflexivity;
       repeat (destruct Hin as [Hin|Hin]; [discriminate Hin|]); destruct Hin.
Qed.

(** X21. Escaping leaves no [<] and no [>] in its result, amounts to
    replacing each character on its own ([&], [<] and [>] by their
    entities, in one pass), never maps two different texts to the same
    result, and returns a text without these three characters
    unchanged. *)
Theorem escapeHtml_safe (value : string) :
  lacks "<" (Main.escapeHtml value) /\
  lacks ">" (Main.escapeHtml value) /\
  Main.escapeHtml value = escapeEach value /\
  (forall other, Main.escapeHtml value = Main.escapeHtml other -> value = other) /\
  (lacks "&" value -> lacks "<" value -> lacks ">" value ->
   Main.escapeHtml value = value).
Proof.
  rewrite escapeHtml_escapeEach. destruct (escapeEach_lacks value) as [Hl Hg].
  split; [assumption|]. split; [assumption|]. split; [reflexivity|]. split.
  - intros other. rewrite escapeHtml_escapeEach. apply escapeEach_injective.
  - apply escapeEach_plain.
Qed.

(** X22. Opening files from the menu, with a window open and the
    renderer ready, is all or nothing: when every chosen file can be
    read, all of them are sent, in the order chosen and with no error;
    when one cannot, nothing is opened and exactly one error, that of an
    unreadable chosen file, is sent.  A cancelled dialog sends
    nothing. *)
Theorem menu_open_all_or_nothing
        (h : Main.Host) (chosen : Main.DialogAnswer) (ms : Main.MainState) :
  Main.mainWindow ms = true ->
  Main.rendererReady ms = true ->
  (Main.canceled chosen = true ->
   snd (Main.openFilesFromMenu h (Ok chosen) ms) = []) /\
  (Main.canceled chosen = false ->
   (forall f, In f (Main.filePaths chosen) ->
      exists c, Main.readFile h (Main.pathResolve h [f]) = Ok c) ->
   errors (snd (Main.openFilesFromMenu h (Ok chosen) ms)) = [] /\
   map path (opened (snd (Main.openFilesFromMenu h (Ok chosen) ms)))
     = map (fun f => Some (Main.pathResolve h [f])) (Main.filePaths chosen)) /\
  (Main.canceled chosen = false ->
   forall f m, In f (Main.filePaths chosen) ->
     Main.readFile h (Main.pathResolve h [f]) = Err m ->
     exists f' m',
       In f' (Main.filePaths chosen) /\
       Main.readFile h (Main.pathResolve h [f']) = Err m' /\
       snd (Main.openFilesFromMenu h (Ok chosen) ms)
         = [Main.Sent (Main.ResourceError m')]).
Proof.
  intros Hwin Hready.
  unfold Main.openFilesFromMenu, Main.handleOpenDialog. rewrite Hwin. cbn [negb].
  split; [|split].
  - intros ->. reflexivity.
  - intros -> Hall. cbn [orb].
    destruct (Main.filePaths chosen) as [|f0 files] eqn:Hfiles; [split; reflexivity|].
    cbn [length Nat.eqb].
    destruct (readAll_total h (Main.loads ms) (f0 :: files) Hall) as [rs Hrs].
    rewrite Hrs. destruct (readAll_files h _ _ _ Hrs) as [Hpaths _].
    rewrite publishAll_sent
      by (unfold Main.advance; cbn [Main.mainWindow Main.rendererReady];
          now rewrite Hwin, Hready).
    cbn [snd]. rewrite opened_sent. split; [|assumption].
    clear. induction rs as [|r rest IH]; [reflexivity|exact IH].
  - intros -> f m Hf Hm. cbn [orb].
    destruct (Main.filePaths chosen) as [|f0 files] eqn:Hfiles; [destruct Hf|].
    cbn [length Nat.eqb].
    destruct (Main.readAll h (Main.loads ms) (f0 :: files)) as [rs|m'] eqn:Hread.
    + destruct (readAll_readable h _ _ _ Hread f Hf) as [c Hc]. congruence.
    + destruct (readAll_failure h _ _ _ Hread) as (f' & Hf' & Hm').
      exists f', m'. split; [assumption|]. split; [assumption|].
      unfold Main.advance. cbn [Main.mainWindow]. now rewrite Hwin.
Qed.

Lemma menu_open_all_or_nothing_witness :
  (false = true ->
   snd (Main.openFilesFromMenu deskHost
          (Ok (Main.mkAnswer false ["/docs/a.md"; "/docs/missing.md"])) windowReady)
     = []) /\
  (false = false ->
   (forall f, In f ["/docs/a.md"; "/docs/missing.md"] ->
      exists c, Main.readFile deskHost (Main.pathResolve deskHost [f]) = Ok c) ->
   errors (snd (Main.openFilesFromMenu deskHost
                  (Ok (Main.mkAnswer false ["/docs/a.md"; "/docs/missing.md"]))
                  windowReady)) = [] /\
   map path (opened (snd (Main.openFilesFromMenu deskHost
                            (Ok (Main.mkAnswer false ["/docs/a.md"; "/docs/missing.md"]))
                            windowReady)))
     = map (fun f => Some (Main.pathResolve deskHost [f]))
           ["/docs/a.md"; "/docs/missing.md"]) /\
  (false = false ->
   forall f m, In f ["/docs/a.md"; "/docs/missing.md"] ->
     Main.readFile deskHost (Main.pathResolve deskHost [f]) = Err m ->
     exists f' m',
       In f' ["/docs/a.md"; "/docs/missing.md"] /\
       Main.readFile deskHost (Main.pathResolve deskHost [f']) = Err m' /\
       snd (Main.openFilesFromMenu deskHost
              (Ok (Main.mkAnswer false ["/docs/a.md"; "/docs/missing.md"]))
              windowReady)
         = [Main.Sent (Main.ResourceError m')]).
Proof.
  apply (menu_open_all_or_nothing deskHost
           (Main.mkAnswer false ["/docs/a.md"; "/docs/missing.md"]) windowReady);
    reflexivity.
Defined.

(** X23. The title of a fetched URL document is the last non-empty
    segment of the final URL's path: when the path is some prefix, a
    slash, a non-empty text without a slash, and then nothing but
    slashes, the title is that text, whatever the host is.  It is the
    host when the path is empty or made of slashes only.  So the title
    is not empty and holds no slash, unless it is the host. *)
Theorem fetched_title
        (h : Main.Host) (n : nat) (target : string) (r : MarkdownResource) :
  Main.fetchMarkdownUrl h n target = Ok r ->
  exists finalUrl0 parsed,
    finalUrl r = Some finalUrl0 /\
    Main.parseUrl h finalUrl0 = Ok parsed /\
    (forall prefix seg slashes,
       Main.pathname parsed = (prefix ++ String "/" (seg ++ slashes))%string ->
       seg <> "" -> lacks "/" seg -> onlyChar "/" slashes ->
       title r = seg) /\
    (forall before seg after,
       Main.split "/" (Main.pathname parsed) = before ++ seg :: after ->
       seg <> "" -> (forall x, In x after -> x = "") ->
       title r = seg) /\
    (onlyChar "/" (Main.pathname parsed) -> title r = Main.host parsed) /\
    (title r = Main.host parsed \/
     (title r <> "" /\ lacks "/" (title r) /\
      In (title r) (Main.split "/" (Main.pathname parsed)))).
Proof.
  intros Hr.
  destruct (fetchMarkdownUrl_shape h n target r Hr)
    as (response & parsed & _ & _ & Hparsed & ->).
  eexists. exists parsed. cbn [finalUrl title].
  split; [reflexivity|]. split; [exact Hparsed|]. split; [|split; [|split]].
  - intros prefix seg slashes Hpath Hne Hseg Hslashes.
    destruct (split_last_segment prefix seg slashes Hseg Hslashes)
      as (before & after & Hsplit & Hafter).
    rewrite Hpath, Hsplit. now apply lastSegmentOr_last.
  - intros before seg after Hsplit Hne Hafter.
    rewrite Hsplit. now apply lastSegmentOr_last.
  - intros Honly. apply lastSegmentOr_empty.
    intros seg Hseg. eapply split_only; eauto.
  - destruct (lastSegmentOr_cases (Main.split "/" (Main.pathname parsed))
                                  (Main.host parsed)) as [E|[Hin Hne]];
      [now left|right].
    split; [assumption|]. split; [|assumption]. eapply split_lacks; eauto.
Qed.

Lemma fetched_title_witness :
  exists finalUrl0 parsed,
    finalUrl (mkResource "uuid-0" "readme.md" "# readme" 0 Url None
                (Some "https://example.com/docs/readme.md")
                (Some "https://example.com/docs/readme.md") None
                (Some "https://example.com/docs/readme.md")) = Some finalUrl0 /\
    Main.parseUrl deskHost finalUrl0 = Ok parsed /\
    (forall prefix seg slashes,
       Main.pathname parsed = (prefix ++ String "/" (seg ++ slashes))%string ->
       seg <> "" -> lacks "/" seg -> onlyChar "/" slashes ->
       "readme.md" = seg) /\
    (forall before seg after,
       Main.split "/" (Main.pathname parsed) = before ++ seg :: after ->
       seg <> "" -> (forall x, In x after -> x = "") ->
       "readme.md" = seg) /\
    (onlyChar "/" (Main.pathname parsed) -> "readme.md" = Main.host parsed) /\
    ("readme.md" = Main.host parsed \/
     ("readme.md" <> "" /\ lacks "/" "readme.md" /\
      In "readme.md" (Main.split "/" (Main.pathname parsed)))).
Proof.
  apply (fetched_title deskHost 0 "https://example.com/docs/readme.md"
           (mkResource "uuid-0" "readme.md" "# readme" 0 Url None
              (Some "https://example.com/docs/readme.md")
              (Some "https://example.com/docs/readme.md") None
              (Some "https://example.com/docs/readme.md"))).
  reflexivity.
Defined.

End ShellProperties.
